(** * Shallow embedding of gophie's [engine] package (src/engine/engines.go)

    Go strings are byte strings; they are modelled as [String.string],
    whose characters are 8-bit [Ascii.ascii] values, so every Go byte is
    representable.  A Go [error] result is [option string] ([None] = nil,
    [Some msg] = an error whose [Error()] is [msg]).  A [*url.URL] is
    [option URL] ([None] = nil) for an abstract type [URL] together with
    its [String()] method; MarshalJSON only observes URLs through it. *)

From Stdlib Require Import ZArith Lia Ascii String.
From stdpp Require Import base list gmap strings pretty.
Open Scope string_scope.
Set Warnings "-register-all".

(** ** Go's [unicode/utf8] and [encoding/json] string handling

    [utf8.DecodeRuneInString], [utf8.EncodeRune], [utf16.DecodeRune] and
    the string encoder and string decoder of [encoding/json]
    ([encodeState.string], [unquoteBytes], [getu4]) as they stand in the
    Go releases of the repository's era.  The index loops of the Go code
    ([i += size]) are written as recursion on the remaining bytes, with a
    fuel argument equal to the remaining length. *)
Module GoJSON.

Definition bval (a : ascii) : Z := Z.of_N (N_of_ascii a).
Definition byte (z : Z) : ascii := ascii_of_N (Z.to_N (Z.land z 255)).

(** The double quote character (code 34). *)
Definition dq : ascii := "034"%char.

Fixpoint sdrop (n : nat) (s : string) : string :=
  match n, s with
  | O, _ => s
  | S n', String _ s' => sdrop n' s'
  | S _, EmptyString => EmptyString
  end.

Fixpoint stake (n : nat) (s : string) : string :=
  match n, s with
  | O, _ => EmptyString
  | S n', String a s' => String a (stake n' s')
  | S _, EmptyString => EmptyString
  end.

Definition RuneError : Z := 65533.   (* U+FFFD *)
Definition RuneSelf : Z := 128.
Definition MaxRune : Z := 1114111.   (* U+10FFFF *)
Definition maskx : Z := 63.
Definition mask2 : Z := 31.
Definition mask3 : Z := 15.
Definition mask4 : Z := 7.
Definition locb : Z := 128.
Definition hicb : Z := 191.

(** The [first] table of package utf8, for a leading byte at or above
    [RuneSelf]: [None] for the invalid leading bytes (0x80..0xC1 and
    0xF5..0xFF), else the sequence size and the accept range of the
    second byte. *)
Definition first (b0 : Z) : option (nat * Z * Z) :=
  if (b0 <? 194)%Z then None
  else if (b0 <=? 223)%Z then Some (2%nat, locb, hicb)
  else if (b0 =? 224)%Z then Some (3%nat, 160%Z, hicb)
  else if (b0 <=? 236)%Z then Some (3%nat, locb, hicb)
  else if (b0 =? 237)%Z then Some (3%nat, locb, 159%Z)
  else if (b0 <=? 239)%Z then Some (3%nat, locb, hicb)
  else if (b0 =? 240)%Z then Some (4%nat, 144%Z, hicb)
  else if (b0 <=? 243)%Z then Some (4%nat, locb, hicb)
  else if (b0 =? 244)%Z then Some (4%nat, locb, 143%Z)
  else None.

Definition in_range (lo hi b : Z) : bool := (lo <=? b)%Z && (b <=? hi)%Z.

(** [utf8.DecodeRuneInString(s)] *)
Definition DecodeRune (s : string) : Z * nat :=
  match s with
  | EmptyString => (RuneError, 0%nat)
  | String a0 t0 =>
    let s0 := bval a0 in
    if (s0 <? RuneSelf)%Z then (s0, 1%nat) else
    match first s0 with
    | None => (RuneError, 1%nat)
    | Some (sz, lo, hi) =>
      match t0 with
      | EmptyString => (RuneError, 1%nat)
      | String a1 t1 =>
        let s1 := bval a1 in
        if negb (in_range lo hi s1) then (RuneError, 1%nat) else
        if (sz <=? 2)%nat then
          (Z.lor (Z.shiftl (Z.land s0 mask2) 6) (Z.land s1 maskx), 2%nat) else
        match t1 with
        | EmptyString => (RuneError, 1%nat)
        | String a2 t2 =>
          let s2 := bval a2 in
          if negb (in_range locb hicb s2) then (RuneError, 1%nat) else
          if (sz <=? 3)%nat then
            (Z.lor (Z.lor (Z.shiftl (Z.land s0 mask3) 12)
                          (Z.shiftl (Z.land s1 maskx) 6)) (Z.land s2 maskx), 3%nat) else
          match t2 with
          | EmptyString => (RuneError, 1%nat)
          | String a3 _ =>
            let s3 := bval a3 in
            if negb (in_range locb hicb s3) then (RuneError, 1%nat) else
            (Z.lor (Z.lor (Z.lor (Z.shiftl (Z.land s0 mask4) 18)
                                 (Z.shiftl (Z.land s1 maskx) 12))
                          (Z.shiftl (Z.land s2 maskx) 6)) (Z.land s3 maskx), 4%nat)
          end
        end
      end
    end
  end.

(** [utf8.EncodeRune]: the bytes written for rune [r] ([uint32(r)] makes
    negative runes exceed [MaxRune]). *)
Definition EncodeRune (r : Z) : string :=
  if (0 <=? r)%Z && (r <=? 127)%Z then String (byte r) EmptyString
  else if (0 <=? r)%Z && (r <=? 2047)%Z then
    String (byte (Z.lor 192 (Z.shiftr r 6)))
      (String (byte (Z.lor 128 (Z.land r maskx))) EmptyString)
  else
    let r := if (r <? 0)%Z || (MaxRune <? r)%Z || in_range 55296 57343 r
             then RuneError else r in
    if (r <=? 65535)%Z then
      String (byte (Z.lor 224 (Z.shiftr r 12)))
        (String (byte (Z.lor 128 (Z.land (Z.shiftr r 6) maskx)))
          (String (byte (Z.lor 128 (Z.land r maskx))) EmptyString))
    else
      String (byte (Z.lor 240 (Z.shiftr r 18)))
        (String (byte (Z.lor 128 (Z.land (Z.shiftr r 12) maskx)))
          (String (byte (Z.lor 128 (Z.land (Z.shiftr r 6) maskx)))
            (String (byte (Z.lor 128 (Z.land r maskx))) EmptyString))).

(** [hex = "0123456789abcdef"] of encoding/json. *)
Definition hex (n : Z) : ascii :=
  match String.get (Z.to_nat n) "0123456789abcdef" with
  | Some c => c
  | None => "0"%char
  end.

(** [htmlSafeSet[b]] for [b < utf8.RuneSelf]: printable ASCII (and DEL)
    except the double quote, the backslash and [<], [>], [&]. *)
Definition htmlSafe (b : Z) : bool :=
  (32 <=? b)%Z && negb ((b =? 34) || (b =? 92) || (b =? 60) || (b =? 62) || (b =? 38))%Z.

(** The escape written for an ASCII byte that is not html-safe. *)
Definition escape_ascii (a : ascii) : string :=
  let b := bval a in
  if (b =? 92)%Z || (b =? 34)%Z then String "\" (String a EmptyString)
  else if (b =? 10)%Z then "\n"
  else if (b =? 13)%Z then "\r"
  else if (b =? 9)%Z then "\t"
  else String "\" (String "u" (String "0" (String "0"
         (String (hex (Z.shiftr b 4)) (String (hex (Z.land b 15)) EmptyString))))).

(** The loop of [encodeState.string(s, escapeHTML = true)]. *)
Fixpoint encode_loop (fuel : nat) (s : string) : string :=
  match fuel with
  | O => EmptyString
  | S fuel' =>
    match s with
    | EmptyString => EmptyString
    | String a rest =>
      let b := bval a in
      if (b <? RuneSelf)%Z then
        if htmlSafe b then String a (encode_loop fuel' rest)
        else escape_ascii a ++ encode_loop fuel' rest
      else
        let '(c, size) := DecodeRune s in
        if (c =? RuneError)%Z && (size =? 1)%nat then
          "\ufffd" ++ encode_loop fuel' (sdrop size s)
        else if (c =? 8232)%Z || (c =? 8233)%Z then
          "\u202" ++ String (hex (Z.land c 15)) (encode_loop fuel' (sdrop size s))
        else stake size s ++ encode_loop fuel' (sdrop size s)
    end
  end.

(** [encodeState.string(s, true)]: the JSON string literal written for [s]. *)
Definition encode_string (s : string) : string :=
  String dq (encode_loop (String.length s) s ++ String dq EmptyString).

(** [getu4(s)]: the value of a [\uXXXX] escape at the head of [s], or -1. *)
Definition hexval (c : ascii) : Z :=
  let b := bval c in
  if in_range 48 57 b then b - 48
  else if in_range 97 102 b then b - 97 + 10
  else if in_range 65 70 b then b - 65 + 10
  else -1.

Definition getu4 (s : string) : Z :=
  match s with
  | String a (String u (String c1 (String c2 (String c3 (String c4 _))))) =>
    if (bval a =? 92)%Z && (bval u =? 117)%Z then
      let h1 := hexval c1 in let h2 := hexval c2 in
      let h3 := hexval c3 in let h4 := hexval c4 in
      if (h1 <? 0)%Z || (h2 <? 0)%Z || (h3 <? 0)%Z || (h4 <? 0)%Z then -1
      else ((h1 * 16 + h2) * 16 + h3) * 16 + h4
    else -1
  | _ => -1
  end.

(** [utf16.IsSurrogate] and [utf16.DecodeRune]. *)
Definition IsSurrogate (r : Z) : bool := (55296 <=? r)%Z && (r <? 57344)%Z.

Definition utf16_DecodeRune (r1 r2 : Z) : Z :=
  if (55296 <=? r1)%Z && (r1 <? 56320)%Z && (56320 <=? r2)%Z && (r2 <? 57344)%Z
  then Z.lor (Z.shiftl (r1 - 55296) 10) (r2 - 56320) + 65536
  else RuneError.

(** The slow loop of [unquoteBytes]: [None] is [ok = false]. *)
Fixpoint unquote_loop (fuel : nat) (s : string) : option string :=
  match fuel with
  | O => Some EmptyString
  | S fuel' =>
    let cont (piece : string) (rest : string) :=
      match unquote_loop fuel' rest with
      | Some t => Some (piece ++ t)
      | None => None
      end in
    match s with
    | EmptyString => Some EmptyString
    | String c rest =>
      let b := bval c in
      if (b =? 92)%Z then
        match rest with
        | EmptyString => None
        | String e rest' =>
          let eb := bval e in
          if (eb =? 34)%Z || (eb =? 92)%Z || (eb =? 47)%Z || (eb =? 39)%Z then
            cont (String e EmptyString) rest'
          else if (eb =? 98)%Z then cont (String (byte 8) EmptyString) rest'
          else if (eb =? 102)%Z then cont (String (byte 12) EmptyString) rest'
          else if (eb =? 110)%Z then cont (String (byte 10) EmptyString) rest'
          else if (eb =? 114)%Z then cont (String (byte 13) EmptyString) rest'
          else if (eb =? 116)%Z then cont (String (byte 9) EmptyString) rest'
          else if (eb =? 117)%Z then
            let rr := getu4 s in
            if (rr <? 0)%Z then None else
            let after := sdrop 6 s in
            if IsSurrogate rr then
              let dec := utf16_DecodeRune rr (getu4 after) in
              if negb (dec =? RuneError)%Z then
                cont (EncodeRune dec) (sdrop 6 after)
              else cont (EncodeRune RuneError) after
            else cont (EncodeRune rr) after
          else None
        end
      else if (b =? 34)%Z || (b <? 32)%Z then None
      else if (b <? RuneSelf)%Z then cont (String c EmptyString) rest
      else
        let '(rr, size) := DecodeRune s in
        cont (EncodeRune rr) (sdrop size s)
    end
  end.

(** The fast scan of [unquoteBytes]: the String.length [r] of the prefix that
    needs no unquoting. *)
Fixpoint plain_prefix (fuel : nat) (s : string) : nat :=
  match fuel with
  | O => O
  | S fuel' =>
    match s with
    | EmptyString => O
    | String c rest =>
      let b := bval c in
      if (b =? 92)%Z || (b =? 34)%Z || (b <? 32)%Z then O
      else if (b <? RuneSelf)%Z then S (plain_prefix fuel' rest)
      else
        let '(rr, size) := DecodeRune s in
        if (rr =? RuneError)%Z && (size =? 1)%nat then O
        else size + plain_prefix fuel' (sdrop size s)
    end
  end.

(** The inside of a quoted literal: [s[1:len(s)-1]] when [s] has length
    at least 2 and starts and ends with a double quote. *)
Definition strip_quotes (s : string) : option string :=
  match s with
  | String q body =>
    if (bval q =? 34)%Z then
      match String.get (String.length body - 1) body with
      | Some q' =>
        if (bval q' =? 34)%Z then Some (substring 0 (String.length body - 1) body)
        else None
      | None => None
      end
    else None
  | EmptyString => None
  end.

(** [unquote(s)] of encoding/json: the bytes of a JSON string literal. *)
Definition unquote (s : string) : option string :=
  match strip_quotes s with
  | None => None
  | Some body =>
    let r := plain_prefix (String.length body) body in
    if (r =? String.length body)%nat then Some body
    else
      match unquote_loop (String.length body) (sdrop r body) with
      | Some t => Some (stake r body ++ t)
      | None => None
      end
  end.

(** [utf8.ValidString]. *)
Fixpoint valid_loop (fuel : nat) (s : string) : bool :=
  match fuel with
  | O => true
  | S fuel' =>
    match s with
    | EmptyString => true
    | String _ _ =>
      let '(rr, size) := DecodeRune s in
      if (rr =? RuneError)%Z && (size =? 1)%nat then false
      else valid_loop fuel' (sdrop size s)
    end
  end.

Definition ValidString (s : string) : bool := valid_loop (String.length s) s.

End GoJSON.

(** JSON values as [encoding/json] writes them. *)
Inductive json :=
| JNull
| JBool (b : bool)
| JNumber (z : Z)
| JString (s : string)
| JArray (l : list json)
| JObject (fields : list (string * json)).

(** [encodeState.reflectValue] for these values: objects and arrays
    separated by commas, strings through [encode_string], integers in
    decimal ([strconv.AppendInt(b, n, 10)]). *)
Fixpoint json_encode (j : json) : string :=
  match j with
  | JNull => "null"
  | JBool true => "true"
  | JBool false => "false"
  | JNumber z => pretty z
  | JString s => GoJSON.encode_string s
  | JArray l =>
    let fix elems (l : list json) : string :=
      match l with
      | [] => EmptyString
      | [x] => json_encode x
      | x :: r => json_encode x ++ "," ++ elems r
      end in
    "[" ++ elems l ++ "]"
  | JObject fs =>
    let fix fields (fs : list (string * json)) : string :=
      match fs with
      | [] => EmptyString
      | [(k, v)] => GoJSON.encode_string k ++ ":" ++ json_encode v
      | (k, v) :: r => GoJSON.encode_string k ++ ":" ++ json_encode v ++ "," ++ fields r
      end in
    "{" ++ fields fs ++ "}"
  end.

(** A Go slice of strings: [None] is the nil slice, [Some l] a non-nil one. *)
Definition slice_append (s : option (list string)) (x : string) : option (list string) :=
  match s with
  | None => Some [x]
  | Some l => Some (app l [x])
  end.

(** [[]string] as encoding/json writes it: nil is [null]. *)
Definition json_of_slice (s : option (list string)) : json :=
  match s with
  | None => JNull
  | Some l => JArray (map JString l)
  end.

(** A Go call either returns or panics. *)
Inductive outcome (A : Type) :=
| Return (a : A)
| Panic (msg : string).
Arguments Return {A} a.
Arguments Panic {A} msg.

Definition nil_deref : string :=
  "runtime error: invalid memory address or nil pointer dereference".

Module Model.

Section WithURL.

(** [url.URL] and its [String()] method. *)
Context {URL : Type}.
Variable URL_String : URL -> string.

(** [type Movie struct] *)
Record Movie := mkMovie {
  Index : Z;
  Title : string;
  CoverPhotoLink : string;
  Description : string;
  Size : string;
  DownloadLink : option URL;
  Year : Z;
  IsSeries : bool;
  SDownloadLink : list (option URL);
  UploadDate : string;
  Source : string
}.

(** The zero value [Movie{}]. *)
Definition zero_Movie : Movie :=
  mkMovie 0 "" "" "" "" None 0 false [] "" "".

(** [func (m *Movie) String() string]: [fmt.Sprintf("%s (%v)", m.Title, m.Year)];
    [%s] writes the string's bytes as they are and [%v] of an [int] its
    decimal form ([pretty] of a [Z]: digits, with [-] before a negative
    number). *)
Definition Movie_String (m : Movie) : string :=
  Title m ++ " (" ++ pretty (Year m) ++ ")".

(** [type SearchResult struct] *)
Record SearchResult := mkSearchResult {
  Query : string;
  Movies : list Movie
}.

(** [func (s *SearchResult) Titles() []string]: appends each title in
    order to a nil slice. *)
Fixpoint titles_loop (ms : list Movie) (titles : list string) : list string :=
  match ms with
  | [] => titles
  | movie :: rest => titles_loop rest (app titles [Title movie])
  end.

Definition Titles (s : SearchResult) : list string :=
  titles_loop (Movies s) [].

(** [errors.New("Movie not Found")] *)
Definition err_not_found : string := "Movie not Found".

(** [func (s *SearchResult) GetMovieByTitle(title string) (Movie, error)] *)
Fixpoint get_movie_loop (ms : list Movie) (title : string) : Movie * option string :=
  match ms with
  | [] => (zero_Movie, Some err_not_found)
  | movie :: rest =>
      if String.eqb (Title movie) title then (movie, None)
      else get_movie_loop rest title
  end.

Definition GetMovieByTitle (s : SearchResult) (title : string) : Movie * option string :=
  get_movie_loop (Movies s) title.

(** [func (s *SearchResult) GetIndexFromTitle(title string) (int, error)]:
    [for index, movie := range s.Movies]. *)
Fixpoint get_index_loop (ms : list Movie) (index : Z) (title : string) : Z * option string :=
  match ms with
  | [] => (0%Z, Some err_not_found)
  | movie :: rest =>
      if String.eqb (Title movie) title then (index, None)
      else get_index_loop rest (index + 1)%Z title
  end.

Definition GetIndexFromTitle (s : SearchResult) (title : string) : Z * option string :=
  get_index_loop (Movies s) 0%Z title.

(** Index [i] is the smallest index of a movie titled [t] in [ms]
    (Go's [==] on strings, i.e. byte equality). *)
Definition first_index (ms : list Movie) (t : string) (i : nat) : Prop :=
  (exists m, ms !! i = Some m /\ Title m = t) /\
  (forall j m, (j < i)%nat -> ms !! j = Some m -> Title m <> t).

(** No movie of [ms] is titled [t]. *)
Definition no_match (ms : list Movie) (t : string) : Prop :=
  forall i m, ms !! i = Some m -> Title m <> t.

(** [u.String()] for a possibly nil [u : *url.URL]. *)
Definition url_String (u : option URL) : outcome string :=
  match u with
  | None => Panic nil_deref
  | Some u => Return (URL_String u)
  end.

(** [type MovieJSON struct { Movie; DownloadLink string; SDownloadLink []string }] *)
Record MovieJSON := mkMovieJSON {
  mj_Movie : Movie;
  mj_DownloadLink : string;
  mj_SDownloadLink : option (list string)
}.

(** [json.Marshal] of a [MovieJSON] value: the fields of the embedded
    [Movie] in declaration order, except [DownloadLink] and
    [SDownloadLink], which the outer fields of the same name shadow; then
    the two outer fields. *)
Definition MovieJSON_value (mj : MovieJSON) : json :=
  let m := mj_Movie mj in
  JObject [("Index", JNumber (Index m));
           ("Title", JString (Title m));
           ("CoverPhotoLink", JString (CoverPhotoLink m));
           ("Description", JString (Description m));
           ("Size", JString (Size m));
           ("Year", JNumber (Year m));
           ("IsSeries", JBool (IsSeries m));
           ("UploadDate", JString (UploadDate m));
           ("Source", JString (Source m));
           ("DownloadLink", JString (mj_DownloadLink mj));
           ("SDownloadLink", json_of_slice (mj_SDownloadLink mj))].

(** [for _, link := range m.SDownloadLink { sDownloadLink = append(sDownloadLink, link.String()) }] *)
Fixpoint sdownload_loop (links : list (option URL)) (acc : option (list string))
  : outcome (option (list string)) :=
  match links with
  | [] => Return acc
  | link :: rest =>
    match url_String link with
    | Panic p => Panic p
    | Return s => sdownload_loop rest (slice_append acc s)
    end
  end.

(** [func (m *Movie) MarshalJSON() ([]byte, error)]; [json.Marshal] of a
    [MovieJSON] cannot fail (its fields are integers, strings, a boolean
    and a string slice), so the error is always nil. *)
Definition MarshalJSON (m : Movie) : outcome (string * option string) :=
  match sdownload_loop (SDownloadLink m) None with
  | Panic p => Panic p
  | Return sDownloadLink =>
    match url_String (DownloadLink m) with
    | Panic p => Panic p
    | Return dl =>
      let movie := mkMovieJSON m dl sDownloadLink in
      Return (json_encode (MovieJSON_value movie), None)
    end
  end.

End WithURL.

End Model.

(** ** The engine registry: [GetEngines] and [GetEngine]

    Go allocation is modelled by a state monad over the next free address:
    [make(map ...)] and each adapter constructor allocate a new object. *)
Module Registry.

Definition M (A : Type) : Type := N -> A * N.
Definition ret {A} (a : A) : M A := fun h => (a, h).
Definition bind {A B} (m : M A) (k : A -> M B) : M B :=
  fun h => let '(a, h') := m h in k a h'.
Local Notation "x <-- m ;; k" := (bind m (fun x => k)) (at level 95, m at level 94, right associativity).

Definition alloc : M N := fun h => (h, (h + 1)%N).

(** The site adapters implementing the [Engine] interface. *)
Inductive Adapter := NetNaija | FzMovies.

(** An [Engine] interface value: the adapter it holds and the address of
    the adapter instance. *)
Record Engine := mkEngine { adapter : Adapter; engine_addr : N }.

(** Modelled from the spec: [NewNetNaijaEngine] and [NewFzEngine] (the
    site adapters, not part of src/) each construct one new instance of
    their adapter. *)
Definition NewNetNaijaEngine : M Engine := a <-- alloc ;; ret (mkEngine NetNaija a).
Definition NewFzEngine : M Engine := a <-- alloc ;; ret (mkEngine FzMovies a).

(** A Go [map[string]Engine]: the address of the map object and its
    entries. *)
Record GoMap := mkGoMap { map_addr : N; map_entries : gmap string Engine }.

Definition make_map : M GoMap := a <-- alloc ;; ret (mkGoMap a ∅).

(** [m[k] = v] *)
Definition map_store (m : GoMap) (k : string) (v : Engine) : GoMap :=
  mkGoMap (map_addr m) (<[k := v]> (map_entries m)).

(** [func GetEngines() map[string]Engine] *)
Definition GetEngines : M GoMap :=
  engines <-- make_map ;;
  e1 <-- NewNetNaijaEngine ;;
  let engines := map_store engines "netnaija" e1 in
  e2 <-- NewFzEngine ;;
  let engines := map_store engines "fzmovies" e2 in
  ret engines.

(** [strings.ToLower]: the ASCII fast path of the Go source; strings with
    a byte at or above [utf8.RuneSelf] go through
    [strings.Map(unicode.ToLower, s)], a Unicode table lookup left
    abstract as [unicode_ToLower]. *)
Definition is_upper (c : ascii) : bool :=
  GoJSON.in_range 65 90 (GoJSON.bval c).

Fixpoint is_ascii_upper (s : string) : bool * bool :=
  match s with
  | EmptyString => (true, false)
  | String c rest =>
    if (GoJSON.bval c <? GoJSON.RuneSelf)%Z then
      let '(isASCII, hasUpper) := is_ascii_upper rest in
      (isASCII, is_upper c || hasUpper)
    else (false, false)
  end.

Fixpoint ascii_lower (s : string) : string :=
  match s with
  | EmptyString => EmptyString
  | String c rest =>
    String (if is_upper c then GoJSON.byte (GoJSON.bval c + 32) else c) (ascii_lower rest)
  end.

Section WithUnicode.
Variable unicode_ToLower : string -> string.

Definition ToLower (s : string) : string :=
  let '(isASCII, hasUpper) := is_ascii_upper s in
  if isASCII then (if hasUpper then ascii_lower s else s)
  else unicode_ToLower s.

(** [fmt.Errorf("Engine %s Does not exist", engine)] *)
Definition err_no_engine (engine : string) : string :=
  "Engine " ++ engine ++ " Does not exist".

(** [func GetEngine(engine string) (Engine, error)]; [None] is the nil
    interface. *)
Definition GetEngine (engine : string) : M (option Engine * option string) :=
  engines <-- GetEngines ;;
  match map_entries engines !! ToLower engine with
  | None => ret (None, Some (err_no_engine engine))
  | Some e => ret (Some e, None)
  end.

End WithUnicode.

(** [x] is a casing of [n]: the same length, each byte of [x] being the
    byte of [n] or, for a lowercase ASCII letter, its uppercase form. *)
Definition upper_char (c : ascii) : ascii :=
  if GoJSON.in_range 97 122 (GoJSON.bval c) then GoJSON.byte (GoJSON.bval c - 32) else c.

Fixpoint casing_of (x n : string) : bool :=
  match x, n with
  | EmptyString, EmptyString => true
  | String a x', String b n' =>
    (Ascii.eqb a b || Ascii.eqb a (upper_char b)) && casing_of x' n'
  | _, _ => false
  end.

Fixpoint all_lower (n : string) : bool :=
  match n with
  | EmptyString => true
  | String b n' => GoJSON.in_range 97 122 (GoJSON.bval b) && all_lower n'
  end.

End Registry.

(** ** [Props] and its [MarshalJSON] *)
Module PropsModel.
Import Model.

Section WithURL.
Context {URL : Type}.
Variable URL_String : URL -> string.

(** [type Props struct] *)
Record Props := mkProps {
  Name : string;
  BaseURL : option URL;
  SearchURL : option URL;
  ListURL : option URL;
  Description : string
}.

(** [type PropsJSON struct { Props; BaseURL string; SearchURL string; ListURL string }] *)
Record PropsJSON := mkPropsJSON {
  pj_Props : Props;
  pj_BaseURL : string;
  pj_SearchURL : string;
  pj_ListURL : string
}.

(** [json.Marshal] of a [PropsJSON] value: the fields of the embedded
    [Props] in declaration order, except the three URLs, which the outer
    fields of the same name shadow; then the three outer fields. *)
Definition PropsJSON_value (pj : PropsJSON) : json :=
  let p := pj_Props pj in
  JObject [("Name", JString (Name p));
           ("Description", JString (Description p));
           ("BaseURL", JString (pj_BaseURL pj));
           ("SearchURL", JString (pj_SearchURL pj));
           ("ListURL", JString (pj_ListURL pj))].

(** [func (p *Props) MarshalJSON() ([]byte, error)]: the fields of the
    composite literal are evaluated in order, each URL through its
    [String()] method; [json.Marshal] of a [PropsJSON] (strings only)
    cannot fail, so the error is always nil. *)
Definition MarshalJSON (p : Props) : outcome (string * option string) :=
  match url_String URL_String (BaseURL p) with
  | Panic e => Panic e
  | Return base =>
    match url_String URL_String (SearchURL p) with
    | Panic e => Panic e
    | Return search =>
      match url_String URL_String (ListURL p) with
      | Panic e => Panic e
      | Return list =>
        Return (json_encode (PropsJSON_value (mkPropsJSON p base search list)), None)
      end
    end
  end.

End WithURL.

End PropsModel.

(** ** [getMovieIndexFromCtx] *)
Module CtxIndex.

(** colly's [Context]: string keys; the values this package reads are
    strings.  [Get] returns the empty string for an absent key. *)
Definition Context := gmap string string.

Definition Ctx_Get (c : Context) (key : string) : string :=
  match c !! key with
  | Some v => v
  | None => EmptyString
  end.

Record Request := mkRequest { Ctx : Context }.

Definition wrap64 (z : Z) : Z := ((z + 2 ^ 63) mod 2 ^ 64 - 2 ^ 63)%Z.
Definition maxUint64 : Z := (2 ^ 64 - 1)%Z.

(** The digit loop of the fast path of [strconv.Atoi]: [ch -= '0'] on a
    byte, then [n = n*10 + int(ch)] on a 64-bit [int]. *)
Fixpoint atoi_fast_loop (s : string) (n : Z) : option Z :=
  match s with
  | EmptyString => Some n
  | String c rest =>
    let ch := ((GoJSON.bval c - 48) mod 256)%Z in
    if (9 <? ch)%Z then None
    else atoi_fast_loop rest (wrap64 (n * 10 + ch))
  end.

(** The loop of [strconv.ParseUint(s, 10, 64)]; [None] is a syntax or
    range error.  Letters give digit values of at least 10, which the base
    10 refuses, so every byte other than a decimal digit is refused. *)
Fixpoint parse_uint_loop (s : string) (n : Z) : option Z :=
  match s with
  | EmptyString => Some n
  | String c rest =>
    let b := GoJSON.bval c in
    if GoJSON.in_range 48 57 b then
      if (maxUint64 / 10 + 1 <=? n)%Z then None
      else
        let n1 := (n * 10 + (b - 48))%Z in
        if (maxUint64 <? n1)%Z then None
        else parse_uint_loop rest n1
    else None
  end.

Definition ParseUint (s : string) : option Z :=
  match s with
  | EmptyString => None
  | _ => parse_uint_loop s 0
  end.

(** [strconv.ParseInt(s, 10, 0)] on a 64-bit platform. *)
Definition ParseInt (s : string) : option Z :=
  match s with
  | EmptyString => None
  | String c rest =>
    let '(neg, body) :=
      if (GoJSON.bval c =? 43)%Z then (false, rest)
      else if (GoJSON.bval c =? 45)%Z then (true, rest)
      else (false, s) in
    match ParseUint body with
    | None => None
    | Some un =>
      let cutoff := (2 ^ 63)%Z in
      if negb neg && (cutoff <=? un)%Z then None
      else if neg && (cutoff <? un)%Z then None
      else Some (if neg then - un else un)%Z
    end
  end.

(** [strconv.Atoi(s)] on a 64-bit platform; [None] is a non-nil error. *)
Definition Atoi (s : string) : option Z :=
  let sLen := String.length s in
  if (0 <? sLen)%nat && (sLen <? 19)%nat then
    match s with
    | EmptyString => None
    | String c0 rest =>
      let signed := (GoJSON.bval c0 =? 45)%Z || (GoJSON.bval c0 =? 43)%Z in
      let body := if signed then rest else s in
      if signed && (String.length body <? 1)%nat then None
      else
        match atoi_fast_loop body 0 with
        | None => None
        | Some n => Some (if (GoJSON.bval c0 =? 45)%Z then wrap64 (- n) else n)
        end
    end
  else ParseInt s.

(** The result of a call that may end the process through [log.Fatal]. *)
Inductive fatal_or (A : Type) :=
| Value (a : A)
| Exit (code : Z).
Arguments Value {A} a.
Arguments Exit {A} code.

(** [func getMovieIndexFromCtx(r *colly.Request) int]: logrus's
    [log.Fatal] logs and calls [os.Exit(1)]. *)
Definition getMovieIndexFromCtx (r : Request) : fatal_or Z :=
  match Atoi (Ctx_Get (Ctx r) "movieIndex") with
  | None => Exit 1
  | Some movieIndex => Value movieIndex
  end.

(** A string-encoded integer in the words of the spec: an optional sign
    followed by one or more decimal digits, with the integer it denotes. *)
Fixpoint digits_value (s : string) (acc : Z) : option Z :=
  match s with
  | EmptyString => Some acc
  | String c rest =>
    if GoJSON.in_range 48 57 (GoJSON.bval c)
    then digits_value rest (acc * 10 + (GoJSON.bval c - 48))%Z
    else None
  end.

Definition numeric_value (s : string) : option Z :=
  match s with
  | EmptyString => None
  | String c rest =>
    if (GoJSON.bval c =? 45)%Z || (GoJSON.bval c =? 43)%Z then
      match rest with
      | EmptyString => None
      | _ => option_map (fun v => if (GoJSON.bval c =? 45)%Z then (- v)%Z else v)
                        (digits_value rest 0)
      end
    else digits_value s 0
  end.

Definition int64_range (z : Z) : Prop := (- 2 ^ 63 <= z < 2 ^ 63)%Z.

(** The integers [strconv] accepts: those of numeric strings that fit in
    an [int]. *)
Definition in_int64 (v : Z) : bool := (- 2 ^ 63 <=? v)%Z && (v <? 2 ^ 63)%Z.

End CtxIndex.

(** ** Concrete URLs and movies for the examples

    A [url.URL] with a scheme, an opaque part and a raw query, and no
    host, user, path or fragment (every example sets the opaque part).
    For such a value [String()] writes the scheme and [:] when the scheme
    is set, the opaque part as stored, then [?] and the raw query as
    stored when the query is set.  [url.Parse] keeps the bytes of the
    query as they come: it refuses only ASCII control bytes. *)
Module URLModel.

Record URL := mkURL {
  Scheme : string;
  Opaque : string;
  RawQuery : string
}.

Definition URL_String (u : URL) : string :=
  (if String.eqb (Scheme u) "" then "" else Scheme u ++ ":") ++
  Opaque u ++
  (if String.eqb (RawQuery u) "" then "" else "?" ++ RawQuery u).

Definition link_ok : URL := mkURL "mailto" "films@example.com" "subject=x".
Definition link_ok2 : URL := mkURL "mailto" "films@example.com" "subject=y".

(** The query holds the byte 0xE9 (a Latin-1 [é]), which is not UTF-8. *)
Definition link_latin1 : URL :=
  mkURL "mailto" "films@example.com" ("subject=" ++ String "233"%char "").

Definition sample_movie (dl : option URL) (sdl : list (option URL)) (series : bool)
  : @Model.Movie URL :=
  Model.mkMovie 1 "Sample" "" "" "" dl 2020 series sdl "" "netnaija".

Definition sample_search : @Model.SearchResult URL :=
  Model.mkSearchResult "sample" [sample_movie (Some link_ok) [] false].

End URLModel.

(** ** Byte classes, for properties of the bytes a function writes *)
Module ByteClasses.
Import GoJSON.

(** Every byte of [s] satisfies [P]. *)
Fixpoint all_bytes (P : ascii -> bool) (s : string) : bool :=
  match s with
  | EmptyString => true
  | String c r => P c && all_bytes P r
  end.

(** Not an opening parenthesis. *)
Definition not_paren (c : ascii) : bool := negb (Ascii.eqb c "(").

(** A byte other than a control byte (below 0x20) and other than [<],
    [>] and [&]. *)
Definition json_out_byte (a : ascii) : bool :=
  (32 <=? bval a)%Z && negb ((bval a =? 60) || (bval a =? 62) || (bval a =? 38))%Z.

(** A byte below [utf8.RuneSelf]. *)
Definition is_ascii_byte (a : ascii) : bool := (bval a <? 128)%Z.

(** A decimal digit. *)
Definition is_digit (a : ascii) : bool := in_range 48 57 (bval a).

End ByteClasses.

(** * Proofs *)

Module ModelFacts.
Import Model.
Local Open Scope list_scope.

Section Lookups.
Context {URL : Type}.
Implicit Types (ms : list (@Movie URL)) (s : @SearchResult URL) (t : string).

Lemma titles_loop_app ms acc :
  titles_loop ms acc = acc ++ map Title ms.
Proof.
  revert acc; induction ms as [|m ms IH]; intros acc; simpl.
  - by rewrite app_nil_r.
  - rewrite IH, <- app_assoc; reflexivity.
Qed.

Lemma Titles_map s : Titles s = map Title (Movies s).
Proof. unfold Titles; rewrite titles_loop_app; reflexivity. Qed.

Lemma first_index_cons_0 m ms t : first_index (m :: ms) t 0 <-> Title m = t.
Proof.
  split.
  - intros [[m' [Hl Ht]] _]; simpl in Hl; congruence.
  - intros Ht; split; [exists m; split; [reflexivity|exact Ht]|].
    intros j m' Hj; lia.
Qed.

Lemma first_index_cons_S m ms t i :
  first_index (m :: ms) t (S i) <-> Title m <> t /\ first_index ms t i.
Proof.
  split.
  - intros [[m' [Hl Ht]] Hlt]; split.
    + apply (Hlt 0%nat m); [lia|reflexivity].
    + split; [exists m'; split; assumption|].
      intros j m'' Hj Hl'; apply (Hlt (S j) m''); [lia|exact Hl'].
  - intros [Hne [[m' [Hl Ht]] Hlt]]; split; [exists m'; split; assumption|].
    intros [|j] m'' Hj Hl'; simpl in Hl'.
    + congruence.
    + apply (Hlt j m''); [lia|exact Hl'].
Qed.

Lemma no_match_cons m ms t : no_match (m :: ms) t <-> Title m <> t /\ no_match ms t.
Proof.
  split.
  - intros H; split; [apply (H 0%nat m); reflexivity|].
    intros i m' Hl; apply (H (S i) m'); exact Hl.
  - intros [Hne H] [|i] m' Hl; simpl in Hl; [congruence|].
    apply (H i m'); exact Hl.
Qed.

(** Both lookup loops, by induction on the movies: either a first match
    exists and both loops stop there, or there is none and both fail. *)
Lemma lookup_loops ms t k :
  (exists i m, first_index ms t i /\ ms !! i = Some m /\
     get_movie_loop ms t = (m, None) /\
     get_index_loop ms k t = ((k + Z.of_nat i)%Z, None)) \/
  (no_match ms t /\
     get_movie_loop ms t = (zero_Movie, Some err_not_found) /\
     get_index_loop ms k t = (0%Z, Some err_not_found)).
Proof.
  revert k; induction ms as [|m ms IH]; intros k.
  - right; split; [|split; reflexivity].
    intros i m Hl; rewrite lookup_nil in Hl; discriminate.
  - simpl; destruct (String.eqb (Title m) t) eqn:Heq.
    + apply String.eqb_eq in Heq; left; exists 0%nat, m.
      split; [apply first_index_cons_0; exact Heq|].
      repeat split; f_equal; lia.
    + apply String.eqb_neq in Heq.
      destruct (IH (k + 1)%Z) as [[i [m' [Hf [Hl [Hm Hi]]]]] | [Hn [Hm Hi]]].
      * left; exists (S i), m'.
        split; [apply first_index_cons_S; split; assumption|].
        split; [exact Hl|]; split; [exact Hm|]; rewrite Hi; f_equal; lia.
      * right; split; [apply no_match_cons; split; assumption|].
        split; assumption.
Qed.

Lemma first_index_no_match ms t i : first_index ms t i -> no_match ms t -> False.
Proof. intros [[m [Hl Ht]] _] Hn; exact (Hn i m Hl Ht). Qed.

(** C4: [Titles] lists the titles in movie order: it has as many entries
    as there are movies, entry [i] is the title of movie [i], and on an
    empty movie sequence it is the empty (nil) slice, not an error. *)
Theorem Titles_mirror_movies s :
  length (Titles s) = length (Movies s) /\
  (forall i m, Movies s !! i = Some m -> Titles s !! i = Some (Title m)) /\
  (Movies s = [] -> Titles s = []).
Proof.
  rewrite Titles_map; split; [apply length_map|split].
  - intros i m Hl; rewrite list_lookup_fmap, Hl; reflexivity.
  - intros ->; reflexivity.
Qed.

(** C2: [GetMovieByTitle s t] returns, with a nil error, the movie at the
    smallest index whose title is byte-equal to [t]; it returns the
    "Movie not Found" error exactly when no movie has title [t]
    (in particular on every empty [SearchResult]). *)
Theorem GetMovieByTitle_first_match s t :
  (forall i, first_index (Movies s) t i ->
     exists m, Movies s !! i = Some m /\ GetMovieByTitle s t = (m, None)) /\
  (snd (GetMovieByTitle s t) = Some err_not_found <-> no_match (Movies s) t) /\
  (snd (GetMovieByTitle s t) = None <-> exists i, first_index (Movies s) t i) /\
  (Movies s = [] -> GetMovieByTitle s t = (zero_Movie, Some err_not_found)).
Proof.
  unfold GetMovieByTitle.
  destruct (lookup_loops (Movies s) t 0) as [[i [m [Hf [Hl [Hm _]]]]] | [Hn [Hm _]]];
    rewrite Hm; simpl.
  - split; [|split; [|split]].
    + intros j Hj; exists m; split; [|reflexivity].
      assert (i = j) as <-; [|exact Hl].
      destruct Hf as [[m1 [Hl1 Ht1]] Hlt1], Hj as [[m2 [Hl2 Ht2]] Hlt2].
      destruct (Nat.lt_total i j) as [Hij|[Hij|Hij]]; [|exact Hij|].
      * exfalso; exact (Hlt2 i m1 Hij Hl1 Ht1).
      * exfalso; exact (Hlt1 j m2 Hij Hl2 Ht2).
    + split; [discriminate|intros Hn; exfalso; exact (first_index_no_match _ _ _ Hf Hn)].
    + split; [intros _; exists i; exact Hf|reflexivity].
    + intros He; rewrite He in Hl; rewrite lookup_nil in Hl; discriminate.
  - split; [|split; [|split]].
    + intros j Hj; exfalso; exact (first_index_no_match _ _ _ Hj Hn).
    + split; [intros _; exact Hn|reflexivity].
    + split; [discriminate|intros [j Hj]; exfalso; exact (first_index_no_match _ _ _ Hj Hn)].
    + intros _; reflexivity.
Qed.

(** C3: [GetIndexFromTitle s t] succeeds exactly when
    [GetMovieByTitle s t] does; on success its index is the smallest
    index of a movie titled [t] and [GetMovieByTitle s t] is the movie at
    that index. *)
Theorem GetIndexFromTitle_consistent s t :
  (snd (GetIndexFromTitle s t) = None <-> snd (GetMovieByTitle s t) = None) /\
  (snd (GetIndexFromTitle s t) = None ->
     exists i, fst (GetIndexFromTitle s t) = Z.of_nat i /\
       first_index (Movies s) t i /\
       Movies s !! i = Some (fst (GetMovieByTitle s t))).
Proof.
  unfold GetIndexFromTitle, GetMovieByTitle.
  destruct (lookup_loops (Movies s) t 0) as [[i [m [Hf [Hl [Hm Hi]]]]] | [Hn [Hm Hi]]];
    rewrite Hm, Hi; simpl.
  - split; [split; reflexivity|].
    intros _; exists i; split; [lia|split; assumption].
  - split; [split; discriminate|discriminate].
Qed.

(** C10: when no movie is titled [t], [GetIndexFromTitle s t] returns the
    integer 0 with the "Movie not Found" error, the same integer it
    returns, with a nil error, for a match at index 0. *)
Theorem GetIndexFromTitle_zero_on_miss s t :
  no_match (Movies s) t ->
  GetIndexFromTitle s t = (0%Z, Some err_not_found) /\
  (forall q (m : @Movie URL) rest, Title m = t ->
     GetIndexFromTitle (mkSearchResult q (m :: rest)) t = (0%Z, None)).
Proof.
  intros Hn; split.
  - unfold GetIndexFromTitle.
    destruct (lookup_loops (Movies s) t 0) as [[i [m [Hf _]]] | [_ [_ Hi]]].
    + exfalso; exact (first_index_no_match _ _ _ Hf Hn).
    + exact Hi.
  - intros q m rest Ht; unfold GetIndexFromTitle; simpl.
    rewrite Ht, String.eqb_refl; reflexivity.
Qed.

End Lookups.
Section Marshal.
Context {URL : Type} (URL_String : URL -> string).
Implicit Types (m : @Movie URL) (us : list URL) (links : list (option URL)).

Lemma fold_slice_append xs l :
  fold_left slice_append xs (Some l) = Some (l ++ xs).
Proof.
  revert l; induction xs as [|x xs IH]; intros l; simpl.
  - by rewrite app_nil_r.
  - rewrite IH, <- app_assoc; reflexivity.
Qed.

Lemma fold_slice_append_nil xs :
  fold_left slice_append xs None = match xs with [] => None | _ => Some xs end.
Proof. destruct xs as [|x xs]; simpl; [reflexivity|apply fold_slice_append]. Qed.

Lemma sdownload_loop_map_Some us acc :
  sdownload_loop URL_String (map Some us) acc =
  Return (fold_left slice_append (map URL_String us) acc).
Proof.
  revert acc; induction us as [|u us IH]; intros acc; simpl; [reflexivity|apply IH].
Qed.

Lemma sdownload_loop_nil_link links acc :
  In None links -> sdownload_loop URL_String links acc = Panic nil_deref.
Proof.
  revert acc; induction links as [|l links IH]; intros acc Hin; simpl in *; [contradiction|].
  destruct l as [u|]; [|reflexivity].
  destruct Hin as [Hin|Hin]; [discriminate|apply IH; exact Hin].
Qed.

Lemma In_None_dec links : {In None links} + {~ In None links}.
Proof.
  induction links as [|[u|] links [IH|IH]].
  - right; intros [].
  - left; right; exact IH.
  - right; intros [H|H]; [discriminate|contradiction].
  - left; left; reflexivity.
  - left; left; reflexivity.
Qed.

Lemma not_In_None_map_Some links :
  ~ In None links -> exists us, links = map Some us.
Proof.
  induction links as [|[u|] links IH]; intros Hn.
  - exists []; reflexivity.
  - destruct IH as [us ->]; [intros Hin; apply Hn; right; exact Hin|].
    exists (u :: us); reflexivity.
  - exfalso; apply Hn; left; reflexivity.
Qed.

(** The value [MarshalJSON] writes for a movie whose links are all
    non-nil, computed through the link loop. *)
Lemma MarshalJSON_links m u us :
  DownloadLink m = Some u -> SDownloadLink m = map Some us ->
  MarshalJSON URL_String m =
    Return (json_encode (MovieJSON_value
      (mkMovieJSON m (URL_String u)
         (match us with [] => None | _ => Some (map URL_String us) end))), None).
Proof.
  intros Hd Hs; unfold MarshalJSON; rewrite Hs, sdownload_loop_map_Some,
    fold_slice_append_nil, Hd; simpl.
  destruct us; reflexivity.
Qed.

(** C9: [MarshalJSON] dereferences every link: it panics with the nil
    pointer dereference exactly when [DownloadLink] or an element of
    [SDownloadLink] is nil; it never returns a non-nil error, and with all
    links non-nil it returns its bytes. *)
Theorem MarshalJSON_nil_link_panics m :
  ((DownloadLink m = None \/ In None (SDownloadLink m)) <->
     MarshalJSON URL_String m = Panic nil_deref) /\
  (forall r, MarshalJSON URL_String m = Return r -> snd r = None) /\
  (DownloadLink m <> None -> ~ In None (SDownloadLink m) ->
     exists b, MarshalJSON URL_String m = Return (b, None)).
Proof.
  destruct (In_None_dec (SDownloadLink m)) as [Hin|Hnin].
  - assert (Hp : MarshalJSON URL_String m = Panic nil_deref).
    { unfold MarshalJSON; rewrite sdownload_loop_nil_link by exact Hin; reflexivity. }
    rewrite Hp; split; [split; [intros _; reflexivity|intros _; right; exact Hin]|].
    split; [intros r Hr; discriminate|intros _ Hn; contradiction].
  - destruct (not_In_None_map_Some _ Hnin) as [us Hs].
    destruct (DownloadLink m) as [u|] eqn:Hd.
    + rewrite (MarshalJSON_links m u us Hd Hs).
      split; [split; [intros [H|H]; [discriminate|contradiction]|discriminate]|].
      split; [intros r Hr; injection Hr as <-; reflexivity|].
      intros _ _; eexists; reflexivity.
    + assert (Hp : MarshalJSON URL_String m = Panic nil_deref).
      { unfold MarshalJSON; rewrite Hs, sdownload_loop_map_Some, Hd; reflexivity. }
      rewrite Hp; split; [split; [intros _; reflexivity|intros _; left; reflexivity]|].
      split; [intros r Hr; discriminate|intros Hn; contradiction].
Qed.

(** C5 (as corrected): for a movie whose [DownloadLink] and
    [SDownloadLink] entries are all non-nil, [MarshalJSON] writes one
    object with the scalar fields, then [DownloadLink] as the URL's
    string form and [SDownloadLink] as the array of the URLs' string
    forms in order; an empty [SDownloadLink] gives [null], whether or not
    the movie is a series. *)
Theorem MarshalJSON_link_rendering m u us :
  DownloadLink m = Some u -> SDownloadLink m = map Some us ->
  MarshalJSON URL_String m =
    Return (json_encode (JObject
      [("Index", JNumber (Index m));
       ("Title", JString (Title m));
       ("CoverPhotoLink", JString (CoverPhotoLink m));
       ("Description", JString (Description m));
       ("Size", JString (Size m));
       ("Year", JNumber (Year m));
       ("IsSeries", JBool (IsSeries m));
       ("UploadDate", JString (UploadDate m));
       ("Source", JString (Source m));
       ("DownloadLink", JString (URL_String u));
       ("SDownloadLink",
          match us with
          | [] => JNull
          | _ => JArray (map (fun v => JString (URL_String v)) us)
          end)]), None).
Proof.
  intros Hd Hs; rewrite (MarshalJSON_links m u us Hd Hs).
  destruct us as [|v us]; [reflexivity|].
  unfold MovieJSON_value, json_of_slice; simpl; rewrite map_map; reflexivity.
Qed.

End Marshal.

End ModelFacts.

Module RegistryFacts.
Import Registry.

Lemma GetEngines_unfold h :
  GetEngines h =
    (mkGoMap h (<["fzmovies" := mkEngine FzMovies (h + 1 + 1)]>
                 (<["netnaija" := mkEngine NetNaija (h + 1)]> ∅)), (h + 1 + 1 + 1)%N).
Proof. reflexivity. Qed.

Lemma GetEngines_dom h :
  dom (map_entries (fst (GetEngines h))) = ({[ "netnaija"; "fzmovies" ]} : gset string).
Proof.
  rewrite GetEngines_unfold; simpl.
  rewrite !dom_insert_L, dom_empty_L; set_solver.
Qed.

(** C8: each call of [GetEngines] allocates a new map and one new
    instance of each adapter, and returns the map keyed by exactly
    "netnaija" (the NetNaija adapter) and "fzmovies" (the FzMovies
    adapter); a second call returns a different map, with the same keys,
    holding different instances of the same adapters. *)
Theorem GetEngines_fresh_each_call h :
  let '(m1, h1) := GetEngines h in
  let '(m2, h2) := GetEngines h1 in
  dom (map_entries m1) = ({[ "netnaija"; "fzmovies" ]} : gset string) /\
  dom (map_entries m2) = ({[ "netnaija"; "fzmovies" ]} : gset string) /\
  map_entries m1 !! "netnaija" = Some (mkEngine NetNaija (h + 1)) /\
  map_entries m1 !! "fzmovies" = Some (mkEngine FzMovies (h + 2)) /\
  (forall k e, map_entries m1 !! k = Some e -> (h <= engine_addr e < h1)%N) /\
  (h <= map_addr m1 < h1)%N /\
  map_addr m1 <> map_addr m2 /\
  (forall k e1 e2, map_entries m1 !! k = Some e1 -> map_entries m2 !! k = Some e2 ->
     adapter e1 = adapter e2 /\ engine_addr e1 <> engine_addr e2).
Proof.
  rewrite (GetEngines_unfold h), (GetEngines_unfold (h + 1 + 1 + 1)).
  pose proof (GetEngines_dom h) as D1; pose proof (GetEngines_dom (h + 1 + 1 + 1)) as D2.
  rewrite GetEngines_unfold in D1, D2; cbv beta iota in D1, D2 |- *.
  cbn [map_entries map_addr fst snd] in D1, D2 |- *.
  split; [exact D1|]; split; [exact D2|].
  split; [rewrite lookup_insert_ne, lookup_insert_eq by discriminate; reflexivity|].
  split; [rewrite lookup_insert_eq; do 2 f_equal; lia|].
  split; [|split; [lia|split; [lia|]]].
  - intros k e Hk.
    destruct (decide (k = "fzmovies")) as [->|Hf]; [rewrite lookup_insert_eq in Hk; injection Hk as <-; simpl; lia|].
    rewrite lookup_insert_ne in Hk by congruence.
    destruct (decide (k = "netnaija")) as [->|Hn]; [rewrite lookup_insert_eq in Hk; injection Hk as <-; simpl; lia|].
    rewrite lookup_insert_ne, lookup_empty in Hk by congruence; discriminate.
  - intros k e1 e2 H1 H2.
    destruct (decide (k = "fzmovies")) as [->|Hf].
    { rewrite lookup_insert_eq in H1, H2; injection H1 as <-; injection H2 as <-; simpl; split; [reflexivity|lia]. }
    rewrite lookup_insert_ne in H1, H2 by congruence.
    destruct (decide (k = "netnaija")) as [->|Hn].
    { rewrite lookup_insert_eq in H1, H2; injection H1 as <-; injection H2 as <-; simpl; split; [reflexivity|lia]. }
    rewrite lookup_insert_ne, lookup_empty in H1 by congruence; discriminate.
Qed.

(** A casing of a lowercase ASCII letter is ASCII, is lowered back to it,
    and is that letter when it is not uppercase (by cases on the byte). *)
Lemma casing_char a b :
  GoJSON.in_range 97 122 (GoJSON.bval b) = true ->
  (Ascii.eqb a b || Ascii.eqb a (upper_char b)) = true ->
  (GoJSON.bval a <? GoJSON.RuneSelf)%Z = true /\
  (if is_upper a then GoJSON.byte (GoJSON.bval a + 32) else a) = b /\
  (is_upper a = false -> a = b).
Proof.
  intros Hb Ha; apply orb_true_iff in Ha.
  destruct Ha as [Ha|Ha]; apply Ascii.eqb_eq in Ha; subst a;
    destruct b as [[] [] [] [] [] [] [] []]; vm_compute in Hb; try discriminate Hb;
    vm_compute; repeat split; intros; first [reflexivity | discriminate].
Qed.

Lemma casing_of_lower x n :
  casing_of x n = true -> all_lower n = true ->
  fst (is_ascii_upper x) = true /\ ascii_lower x = n /\
  (snd (is_ascii_upper x) = false -> x = n).
Proof.
  revert n; induction x as [|a x IH]; intros [|b n] Hc Hl; simpl in Hc; try discriminate.
  - split; [reflexivity|split; reflexivity].
  - apply andb_true_iff in Hc as [Ha Hc]; simpl in Hl; apply andb_true_iff in Hl as [Hb Hl].
    destruct (casing_char a b Hb Ha) as [Hasc [Hlow Hsame]].
    destruct (IH n Hc Hl) as [Hi [Hx Hs]].
    simpl; rewrite Hasc.
    destruct (is_ascii_upper x) as [isA hasU]; simpl in Hi, Hs |- *.
    split; [exact Hi|]; split; [rewrite Hlow, Hx; reflexivity|].
    intros Hu; apply orb_false_iff in Hu as [Hu1 Hu2].
    rewrite (Hsame Hu1), (Hs Hu2); reflexivity.
Qed.

(** [strings.ToLower] maps every casing of a lowercase ASCII name to the
    name, whatever the Unicode tables do. *)
Lemma ToLower_casing ul x n :
  casing_of x n = true -> all_lower n = true -> ToLower ul x = n.
Proof.
  intros Hc Hl; destruct (casing_of_lower x n Hc Hl) as [Hi [Hx Hs]].
  unfold ToLower; destruct (is_ascii_upper x) as [isA hasU]; simpl in Hi, Hs.
  subst isA; destruct hasU; [exact Hx|apply Hs; reflexivity].
Qed.

Lemma GetEngine_unfold ul x h :
  GetEngine ul x h =
    (match map_entries (fst (GetEngines h)) !! ToLower ul x with
     | None => (None, Some (err_no_engine x))
     | Some e => (Some e, None)
     end, (h + 1 + 1 + 1)%N).
Proof.
  unfold GetEngine, bind at 1; rewrite GetEngines_unfold; cbn [fst].
  destruct (_ !! ToLower ul x); reflexivity.
Qed.

(** C1: [GetEngine] is case-insensitive: every casing of "netnaija"
    (resp. "fzmovies") gives the NetNaija (resp. FzMovies) adapter with a
    nil error, on every call; a name whose [strings.ToLower] is neither
    key gives the nil engine and the error "Engine %s Does not exist"
    with the name exactly as passed.  [ul] is the Unicode lowering that
    [strings.ToLower] applies to non-ASCII strings. *)
Theorem GetEngine_case_insensitive ul h :
  (forall x, casing_of x "netnaija" = true ->
     exists e, fst (GetEngine ul x h) = (Some e, None) /\ adapter e = NetNaija) /\
  (forall x, casing_of x "fzmovies" = true ->
     exists e, fst (GetEngine ul x h) = (Some e, None) /\ adapter e = FzMovies) /\
  (forall x, ToLower ul x <> "netnaija" -> ToLower ul x <> "fzmovies" ->
     fst (GetEngine ul x h) = (None, Some ("Engine " ++ x ++ " Does not exist"))).
Proof.
  split; [|split].
  - intros x Hc; rewrite GetEngine_unfold, (ToLower_casing ul x _ Hc eq_refl).
    rewrite GetEngines_unfold; cbn [fst map_entries].
    rewrite lookup_insert_ne, lookup_insert_eq by discriminate.
    eexists; split; reflexivity.
  - intros x Hc; rewrite GetEngine_unfold, (ToLower_casing ul x _ Hc eq_refl).
    rewrite GetEngines_unfold; cbn [fst map_entries].
    rewrite lookup_insert_eq.
    eexists; split; reflexivity.
  - intros x Hn Hf; rewrite GetEngine_unfold, GetEngines_unfold; cbn [fst map_entries].
    rewrite lookup_insert_ne by congruence.
    rewrite lookup_insert_ne by congruence.
    rewrite lookup_empty; reflexivity.
Qed.

End RegistryFacts.

Module GoJSONFacts.
Import GoJSON.

Lemma bval_range a : (0 <= bval a < 256)%Z.
Proof. unfold bval; pose proof (N_ascii_bounded a); lia. Qed.

Lemma in_range_true lo hi b : in_range lo hi b = true <-> (lo <= b <= hi)%Z.
Proof. unfold in_range; rewrite andb_true_iff, !Z.leb_le; reflexivity. Qed.

Lemma in_range_false lo hi b : in_range lo hi b = false <-> (b < lo \/ hi < b)%Z.
Proof.
  unfold in_range; rewrite andb_false_iff, !Z.leb_gt; reflexivity.
Qed.

(** Bit operations on disjoint bit ranges are arithmetic. *)
Lemma lor_disjoint_add a b n :
  (0 <= n)%Z -> (a mod 2 ^ n = 0)%Z -> (0 <= b < 2 ^ n)%Z ->
  Z.lor a b = (a + b)%Z.
Proof.
  intros Hn Ha Hb.
  assert (Hand : Z.land a b = 0%Z).
  { apply Z.bits_inj_0; intros i; rewrite Z.land_spec.
    destruct (Z.lt_ge_cases i 0) as [Hi|Hi]; [rewrite Z.testbit_neg_r by exact Hi; reflexivity|].
    destruct (Z.lt_ge_cases i n) as [Hin|Hin].
    - rewrite <- (Z.mod_pow2_bits_low a n i Hin), Ha, Z.bits_0; reflexivity.
    - rewrite <- (Z.mod_small b (2 ^ n)) by lia.
      rewrite Z.mod_pow2_bits_high by lia; apply andb_false_r. }
  rewrite <- Z.lxor_lor by exact Hand; symmetry; apply Z.add_nocarry_lxor; exact Hand.
Qed.

Lemma land_mod a n : (0 <= n)%Z -> Z.land a (Z.ones n) = (a mod 2 ^ n)%Z.
Proof. apply Z.land_ones. Qed.

Lemma byte_bval a : byte (bval a) = a.
Proof.
  unfold byte, bval.
  change 255%Z with (Z.ones 8); rewrite land_mod by lia.
  rewrite Z.mod_small by (pose proof (N_ascii_bounded a); change (2 ^ 8)%Z with 256%Z; lia).
  rewrite N2Z.id; apply ascii_N_embedding.
Qed.

End GoJSONFacts.

Module CtxIndexFacts.
Import CtxIndex GoJSON GoJSONFacts.

Lemma wrap64_id z : (- 2 ^ 63 <= z < 2 ^ 63)%Z -> wrap64 z = z.
Proof. intros H; unfold wrap64; rewrite Z.mod_small; lia. Qed.

Lemma digits_value_bounds body acc v :
  (0 <= acc)%Z -> digits_value body acc = Some v ->
  (acc * 10 ^ Z.of_nat (String.length body) <= v <
   (acc + 1) * 10 ^ Z.of_nat (String.length body))%Z.
Proof.
  revert acc; induction body as [|c body IH]; intros acc Hacc Hd; simpl in Hd.
  - injection Hd as <-; cbn [String.length Z.of_nat]; rewrite Z.pow_0_r; lia.
  - destruct (in_range 48 57 (bval c)) eqn:Hc; [|discriminate].
    apply in_range_true in Hc.
    specialize (IH (acc * 10 + (bval c - 48))%Z ltac:(lia) Hd).
    simpl String.length; rewrite Nat2Z.inj_succ, Z.pow_succ_r by lia.
    assert (0 < 10 ^ Z.of_nat (String.length body))%Z by (apply Z.pow_pos_nonneg; lia).
    nia.
Qed.

Lemma atoi_fast_loop_digits body acc :
  (0 <= acc)%Z -> ((acc + 1) * 10 ^ Z.of_nat (String.length body) <= 2 ^ 63)%Z ->
  atoi_fast_loop body acc = digits_value body acc.
Proof.
  revert acc; induction body as [|c body IH]; intros acc Hacc Hb; simpl; [reflexivity|].
  simpl String.length in Hb; rewrite Nat2Z.inj_succ, Z.pow_succ_r in Hb by lia.
  assert (Hp : (0 < 10 ^ Z.of_nat (String.length body))%Z) by (apply Z.pow_pos_nonneg; lia).
  pose proof (bval_range c) as Hr.
  destruct (in_range 48 57 (bval c)) eqn:Hc.
  - apply in_range_true in Hc.
    rewrite (Z.mod_small (bval c - 48) 256) by lia.
    replace (9 <? bval c - 48)%Z with false by (symmetry; apply Z.ltb_ge; lia).
    rewrite wrap64_id by nia.
    apply IH; nia.
  - apply in_range_false in Hc.
    replace (9 <? (bval c - 48) mod 256)%Z with true; [reflexivity|].
    symmetry; apply Z.ltb_lt.
    destruct Hc as [Hc|Hc].
    + rewrite <- (Z.mod_add _ 1 256) by lia; rewrite Z.mod_small; lia.
    + rewrite Z.mod_small; lia.
Qed.

Lemma digits_value_ge body acc v :
  (0 <= acc)%Z -> digits_value body acc = Some v -> (acc <= v)%Z.
Proof.
  intros Hacc Hd; pose proof (digits_value_bounds body acc v Hacc Hd).
  assert (0 < 10 ^ Z.of_nat (String.length body))%Z by (apply Z.pow_pos_nonneg; lia).
  nia.
Qed.

Lemma parse_uint_loop_digits body acc :
  (0 <= acc <= maxUint64)%Z ->
  parse_uint_loop body acc =
    match digits_value body acc with
    | Some v => if (v <=? maxUint64)%Z then Some v else None
    | None => None
    end.
Proof.
  revert acc; induction body as [|c body IH]; intros acc Hacc; simpl.
  - replace (acc <=? maxUint64)%Z with true by (symmetry; apply Z.leb_le; lia); reflexivity.
  - destruct (in_range 48 57 (bval c)) eqn:Hc; [|reflexivity].
    apply in_range_true in Hc.
    destruct (maxUint64 / 10 + 1 <=? acc)%Z eqn:Hcut.
    + apply Z.leb_le in Hcut.
      destruct (digits_value body _) as [v|] eqn:Hd; [|reflexivity].
      pose proof (digits_value_ge _ (acc * 10 + (bval c - 48))%Z _ ltac:(lia) Hd).
      assert (Hm : (maxUint64 / 10 + 1 = 1844674407370955162 /\
                    maxUint64 = 18446744073709551615)%Z) by (split; reflexivity).
      replace (v <=? maxUint64)%Z with false; [reflexivity|].
      symmetry; apply Z.leb_gt; lia.
    + apply Z.leb_gt in Hcut.
      destruct (maxUint64 <? acc * 10 + (bval c - 48))%Z eqn:Hov.
      * apply Z.ltb_lt in Hov.
        destruct (digits_value body _) as [v|] eqn:Hd; [|reflexivity].
        pose proof (digits_value_ge _ (acc * 10 + (bval c - 48))%Z _ ltac:(lia) Hd).
        replace (v <=? maxUint64)%Z with false; [reflexivity|].
        symmetry; apply Z.leb_gt; lia.
      * apply Z.ltb_ge in Hov; apply IH; lia.
Qed.

(** Case analysis on the integer comparisons of a goal. *)
Ltac case_zbools :=
  repeat match goal with
  | |- context [if ?b then _ else _] => destruct b eqn:?
  | |- context [(?x <=? ?y)%Z] => destruct (x <=? y)%Z eqn:?
  | |- context [(?x <? ?y)%Z] => destruct (x <? y)%Z eqn:?
  end;
  repeat match goal with
  | H : (_ <=? _)%Z = true |- _ => apply Z.leb_le in H
  | H : (_ <=? _)%Z = false |- _ => apply Z.leb_gt in H
  | H : (_ <? _)%Z = true |- _ => apply Z.ltb_lt in H
  | H : (_ <? _)%Z = false |- _ => apply Z.ltb_ge in H
  end.

Lemma ParseUint_digits body :
  body <> EmptyString ->
  ParseUint body =
    match digits_value body 0 with
    | Some v => if (v <=? maxUint64)%Z then Some v else None
    | None => None
    end.
Proof.
  intros Hne; destruct body as [|c body]; [contradiction|].
  apply parse_uint_loop_digits; unfold maxUint64; lia.
Qed.

Lemma unsigned_case (d : option Z) (neg : bool) :
  (forall v, d = Some v -> (0 <= v)%Z) ->
  match match d with
        | Some v => if (v <=? maxUint64)%Z then Some v else None
        | None => None
        end with
  | None => None
  | Some un =>
    if negb neg && (2 ^ 63 <=? un)%Z then None
    else if neg && (2 ^ 63 <? un)%Z then None
    else Some (if neg then - un else un)%Z
  end =
  match option_map (fun v => if neg then (- v)%Z else v) d with
  | Some v => if in_int64 v then Some v else None
  | None => None
  end.
Proof.
  intros Hpos; destruct d as [v|]; [|reflexivity]; simpl.
  specialize (Hpos v eq_refl).
  assert (Hm : maxUint64 = 18446744073709551615%Z) by reflexivity.
  assert (Hp : (2 ^ 63 = 9223372036854775808)%Z) by reflexivity.
  rewrite Hp, Hm.
  destruct neg; simpl; unfold in_int64; case_zbools; first [reflexivity | discriminate | lia].
Qed.

Lemma digits_value_nonneg body v : digits_value body 0 = Some v -> (0 <= v)%Z.
Proof. intros Hd; exact (digits_value_ge body 0 v ltac:(lia) Hd). Qed.

#[local] Arguments digits_value : simpl never.
#[local] Arguments ParseUint : simpl never.

Lemma ParseInt_numeric s :
  ParseInt s =
    match numeric_value s with
    | Some v => if in_int64 v then Some v else None
    | None => None
    end.
Proof.
  destruct s as [|c rest]; [reflexivity|].
  unfold ParseInt, numeric_value.
  destruct (bval c =? 43)%Z eqn:H43; [|destruct (bval c =? 45)%Z eqn:H45].
  - assert (H45 : (bval c =? 45)%Z = false) by (apply Z.eqb_neq; apply Z.eqb_eq in H43; lia).
    rewrite H45; simpl.
    destruct rest as [|c' rest']; [reflexivity|].
    rewrite ParseUint_digits by discriminate.
    pose proof (unsigned_case (digits_value (String c' rest') 0) false
                  (digits_value_nonneg _)) as U; simpl in U.
    rewrite U; destruct (digits_value _ 0); reflexivity.
  - simpl.
    destruct rest as [|c' rest']; [reflexivity|].
    rewrite ParseUint_digits by discriminate.
    pose proof (unsigned_case (digits_value (String c' rest') 0) true
                  (digits_value_nonneg _)) as U; simpl in U.
    rewrite U; destruct (digits_value _ 0); reflexivity.
  - simpl.
    rewrite ParseUint_digits by discriminate.
    pose proof (unsigned_case (digits_value (String c rest) 0) false
                  (digits_value_nonneg _)) as U; simpl in U.
    rewrite U; destruct (digits_value _ 0); reflexivity.
Qed.

Lemma fast_digits body :
  (String.length body <= 18)%nat ->
  atoi_fast_loop body 0 = digits_value body 0 /\
  (forall v, digits_value body 0 = Some v -> (0 <= v < 10 ^ 18)%Z).
Proof.
  intros Hl.
  assert (Hp : (10 ^ Z.of_nat (String.length body) <= 10 ^ 18)%Z)
    by (apply Z.pow_le_mono_r; lia).
  assert (H18 : (10 ^ 18 <= 2 ^ 63)%Z) by (apply Z.leb_le; reflexivity).
  split.
  - apply atoi_fast_loop_digits; lia.
  - intros v Hd; pose proof (digits_value_bounds body 0 v ltac:(lia) Hd); lia.
Qed.

Lemma Atoi_numeric s :
  Atoi s =
    match numeric_value s with
    | Some v => if in_int64 v then Some v else None
    | None => None
    end.
Proof.
  unfold Atoi.
  destruct ((0 <? String.length s)%nat && (String.length s <? 19)%nat) eqn:Hf;
    [|apply ParseInt_numeric].
  apply andb_true_iff in Hf as [H0 H19]; apply Nat.ltb_lt in H0, H19.
  destruct s as [|c0 rest]; [simpl in H0; lia|].
  simpl String.length in H19.
  assert (H18 : (10 ^ 18 <= 2 ^ 63)%Z) by (apply Z.leb_le; reflexivity).
  unfold numeric_value.
  destruct ((bval c0 =? 45)%Z || (bval c0 =? 43)%Z) eqn:Hsig.
  - destruct rest as [|c1 rest1]; [reflexivity|].
    cbn [andb String.length Nat.ltb Nat.leb].
    destruct (fast_digits (String c1 rest1) ltac:(lia)) as [-> Hb].
    destruct (digits_value (String c1 rest1) 0) as [n|] eqn:Hd; [|reflexivity].
    specialize (Hb n eq_refl); simpl.
    destruct (bval c0 =? 45)%Z.
    + rewrite wrap64_id by lia.
      unfold in_int64; replace (- 2 ^ 63 <=? - n)%Z with true by (symmetry; apply Z.leb_le; lia).
      replace (- n <? 2 ^ 63)%Z with true by (symmetry; apply Z.ltb_lt; lia); reflexivity.
    + unfold in_int64; replace (- 2 ^ 63 <=? n)%Z with true by (symmetry; apply Z.leb_le; lia).
      replace (n <? 2 ^ 63)%Z with true by (symmetry; apply Z.ltb_lt; lia); reflexivity.
  - cbn [andb].
    destruct (fast_digits (String c0 rest) ltac:(simpl; lia)) as [-> Hb].
    apply orb_false_iff in Hsig as [H45 _]; rewrite H45.
    destruct (digits_value (String c0 rest) 0) as [n|] eqn:Hd; [|reflexivity].
    specialize (Hb n eq_refl).
    unfold in_int64; replace (- 2 ^ 63 <=? n)%Z with true by (symmetry; apply Z.leb_le; lia).
    replace (n <? 2 ^ 63)%Z with true by (symmetry; apply Z.ltb_lt; lia); reflexivity.
Qed.

(** C7: [getMovieIndexFromCtx] returns [i] when the "movieIndex" value is
    a string-encoded integer [i] (an optional sign, then decimal digits)
    that fits in an [int]; when the value is absent or not numeric it
    takes the fatal path, [log.Fatal], which exits with status 1; and
    whenever it returns an index, that index is the integer the stored
    string denotes. *)
Theorem getMovieIndexFromCtx_spec r :
  (forall s i, Ctx r !! "movieIndex" = Some s -> numeric_value s = Some i ->
     int64_range i -> getMovieIndexFromCtx r = Value i) /\
  (Ctx r !! "movieIndex" = None -> getMovieIndexFromCtx r = Exit 1) /\
  (forall s, Ctx r !! "movieIndex" = Some s -> numeric_value s = None ->
     getMovieIndexFromCtx r = Exit 1) /\
  (forall v, getMovieIndexFromCtx r = Value v ->
     exists s, Ctx r !! "movieIndex" = Some s /\ numeric_value s = Some v).
Proof.
  unfold getMovieIndexFromCtx, Ctx_Get.
  split; [|split; [|split]].
  - intros s i Hs Hn [Hlo Hhi]; rewrite Hs, Atoi_numeric, Hn.
    unfold in_int64; replace (- 2 ^ 63 <=? i)%Z with true by (symmetry; apply Z.leb_le; lia).
    replace (i <? 2 ^ 63)%Z with true by (symmetry; apply Z.ltb_lt; lia); reflexivity.
  - intros Hs; rewrite Hs; reflexivity.
  - intros s Hs Hn; rewrite Hs, Atoi_numeric, Hn; reflexivity.
  - intros v; destruct (Ctx r !! "movieIndex") as [s|] eqn:Hs; [|discriminate].
    rewrite Atoi_numeric; destruct (numeric_value s) as [w|] eqn:Hn; [|discriminate].
    destruct (in_int64 w); [|discriminate].
    intros Hv; injection Hv as <-; exists s; split; [reflexivity|exact Hn].
Qed.

End CtxIndexFacts.

(** ** [encoding/json] string literals round-trip valid UTF-8

    The decoder ([unquote]) gives back exactly the bytes the encoder
    ([encode_string]) was given, when those bytes are valid UTF-8. *)
Module UTF8Facts.
Import GoJSON GoJSONFacts.

Ltac zb :=
  repeat match goal with
  | |- context [(?x <=? ?y)%Z] => destruct (Z.leb_spec x y)
  | |- context [(?x <? ?y)%Z] => destruct (Z.ltb_spec x y)
  | |- context [(?x =? ?y)%Z] => destruct (Z.eqb_spec x y)
  end; cbn [andb orb] in *; try lia.

Ltac lor_plus :=
  repeat match goal with
  | |- context [Z.lor ?a ?b] =>
    first [ rewrite (lor_disjoint_add a b 6) by (Z.div_mod_to_equations; lia)
          | rewrite (lor_disjoint_add a b 12) by (Z.div_mod_to_equations; lia)
          | rewrite (lor_disjoint_add a b 18) by (Z.div_mod_to_equations; lia)
          | rewrite (lor_disjoint_add a b 4) by (Z.div_mod_to_equations; lia)
          | rewrite (lor_disjoint_add a b 3) by (Z.div_mod_to_equations; lia) ]
  end.

Ltac bits :=
  unfold maskx, mask2, mask3, mask4, in_range in *;
  change 63%Z with (Z.ones 6) in *; change 31%Z with (Z.ones 5) in *;
  change 15%Z with (Z.ones 4) in *; change 7%Z with (Z.ones 3) in *;
  rewrite ?land_mod by lia;
  rewrite ?Z.shiftl_mul_pow2, ?Z.shiftr_div_pow2 by lia;
  change (2 ^ 3)%Z with 8%Z in *; change (2 ^ 4)%Z with 16%Z in *;
  change (2 ^ 5)%Z with 32%Z in *; change (2 ^ 6)%Z with 64%Z in *;
  change (2 ^ 12)%Z with 4096%Z in *; change (2 ^ 18)%Z with 262144%Z in *.

Ltac fin := bits; lor_plus; repeat f_equal; Z.div_mod_to_equations; lia.

Lemma dec2 b0 b1 : (194 <= b0 <= 223)%Z -> (128 <= b1 <= 191)%Z ->
  Z.lor (Z.shiftl (Z.land b0 mask2) 6) (Z.land b1 maskx) = ((b0 - 192) * 64 + (b1 - 128))%Z.
Proof. intros. bits. lor_plus. Z.div_mod_to_equations; lia. Qed.

Lemma enc2 b0 b1 : (194 <= b0 <= 223)%Z -> (128 <= b1 <= 191)%Z ->
  EncodeRune ((b0 - 192) * 64 + (b1 - 128)) = String (byte b0) (String (byte b1) EmptyString).
Proof.
  intros. unfold EncodeRune, MaxRune, RuneError. zb; fin.
Qed.

Lemma dec3 b0 b1 b2 : (224 <= b0 <= 239)%Z -> (128 <= b1 <= 191)%Z -> (128 <= b2 <= 191)%Z ->
  Z.lor (Z.lor (Z.shiftl (Z.land b0 mask3) 12) (Z.shiftl (Z.land b1 maskx) 6)) (Z.land b2 maskx)
  = ((b0 - 224) * 4096 + (b1 - 128) * 64 + (b2 - 128))%Z.
Proof. intros. bits. lor_plus. Z.div_mod_to_equations; lia. Qed.

Lemma enc3 b0 b1 b2 : (224 <= b0 <= 239)%Z -> (128 <= b1 <= 191)%Z -> (128 <= b2 <= 191)%Z ->
  (2048 <= (b0 - 224) * 4096 + (b1 - 128) * 64 + (b2 - 128))%Z ->
  ((b0 - 224) * 4096 + (b1 - 128) * 64 + (b2 - 128) < 55296 \/
   57343 < (b0 - 224) * 4096 + (b1 - 128) * 64 + (b2 - 128))%Z ->
  EncodeRune ((b0 - 224) * 4096 + (b1 - 128) * 64 + (b2 - 128)) =
  String (byte b0) (String (byte b1) (String (byte b2) EmptyString)).
Proof. intros. unfold EncodeRune, MaxRune, RuneError, in_range. zb; fin. Qed.

Lemma dec4 b0 b1 b2 b3 : (240 <= b0 <= 244)%Z -> (128 <= b1 <= 191)%Z -> (128 <= b2 <= 191)%Z ->
  (128 <= b3 <= 191)%Z ->
  Z.lor (Z.lor (Z.lor (Z.shiftl (Z.land b0 mask4) 18) (Z.shiftl (Z.land b1 maskx) 12))
               (Z.shiftl (Z.land b2 maskx) 6)) (Z.land b3 maskx)
  = ((b0 - 240) * 262144 + (b1 - 128) * 4096 + (b2 - 128) * 64 + (b3 - 128))%Z.
Proof. intros. bits. lor_plus. Z.div_mod_to_equations; lia. Qed.

Lemma enc4 b0 b1 b2 b3 : (240 <= b0 <= 244)%Z -> (128 <= b1 <= 191)%Z -> (128 <= b2 <= 191)%Z ->
  (128 <= b3 <= 191)%Z ->
  (65536 <= (b0 - 240) * 262144 + (b1 - 128) * 4096 + (b2 - 128) * 64 + (b3 - 128) <= 1114111)%Z ->
  EncodeRune ((b0 - 240) * 262144 + (b1 - 128) * 4096 + (b2 - 128) * 64 + (b3 - 128)) =
  String (byte b0) (String (byte b1) (String (byte b2) (String (byte b3) EmptyString))).
Proof. intros. unfold EncodeRune, MaxRune, RuneError, in_range. zb; fin. Qed.

Lemma first_cases b0 sz lo hi : first b0 = Some (sz, lo, hi) ->
  (sz = 2%nat /\ lo = 128 /\ hi = 191 /\ 194 <= b0 <= 223)%Z \/
  (sz = 3%nat /\ 224 <= b0 <= 239 /\ 128 <= lo /\ hi <= 191 /\
   (b0 = 224 -> lo = 160) /\ (b0 = 237 -> hi = 159))%Z \/
  (sz = 4%nat /\ 240 <= b0 <= 244 /\ 128 <= lo /\ hi <= 191 /\
   (b0 = 240 -> lo = 144) /\ (b0 = 244 -> hi = 143))%Z.
Proof.
  unfold first, locb, hicb; intros F.
  repeat match type of F with
  | context [if (?x <=? ?y)%Z then _ else _] => destruct (Z.leb_spec x y)
  | context [if (?x <? ?y)%Z then _ else _] => destruct (Z.ltb_spec x y)
  | context [if (?x =? ?y)%Z then _ else _] => destruct (Z.eqb_spec x y)
  end; try discriminate F; injection F as <- <- <-; lia.
Qed.

Ltac bad H Hne := injection H as <- <-; rewrite Z.eqb_refl in Hne; discriminate Hne.

Lemma rune_ok a t c size :
  (128 <= bval a)%Z -> DecodeRune (String a t) = (c, size) ->
  ((c =? RuneError)%Z && (size =? 1)%nat) = false ->
  (2 <= size <= 4)%nat /\ (size <= String.length (String a t))%nat /\
  EncodeRune c = stake size (String a t) /\
  (forall Y, DecodeRune (stake size (String a t) ++ Y) = (c, size)).
Proof.
  intros Ha H Hne.
  assert (Hlt : (bval a <? RuneSelf)%Z = false) by (apply Z.ltb_ge; unfold RuneSelf; lia).
  unfold DecodeRune in H; cbv zeta in H; rewrite Hlt in H.
  destruct (first (bval a)) as [[[sz lo] hi]|] eqn:F; [|bad H Hne].
  destruct t as [|a1 t1]; [bad H Hne|].
  destruct (in_range lo hi (bval a1)) eqn:R1; cbn [negb] in H; [|bad H Hne].
  apply in_range_true in R1.
  pose proof (first_cases _ _ _ _ F) as FC.
  destruct (sz <=? 2)%nat eqn:S2.
  - apply Nat.leb_le in S2.
    destruct FC as [(-> & -> & -> & B0)|[(-> & _)|(-> & _)]]; [|lia|lia].
    injection H as <- <-.
    split; [lia|]; split; [simpl; lia|]; split.
    + rewrite dec2 by lia. rewrite enc2 by lia. rewrite !byte_bval; reflexivity.
    + intros Y; simpl; unfold DecodeRune; cbv zeta; rewrite Hlt, F.
      replace (in_range 128 191 (bval a1)) with true by (symmetry; apply in_range_true; lia).
      reflexivity.
  - apply Nat.leb_gt in S2.
    destruct t1 as [|a2 t2]; [bad H Hne|].
    destruct (in_range locb hicb (bval a2)) eqn:R2; cbn [negb] in H; [|bad H Hne].
    pose proof R2 as R2'; apply in_range_true in R2'; unfold locb, hicb in R2'.
    destruct (sz <=? 3)%nat eqn:S3.
    + apply Nat.leb_le in S3.
      destruct FC as [(-> & _)|[(-> & B0 & L1 & H1 & E0 & E1)|(-> & _)]]; [lia| |lia].
      injection H as <- <-.
      split; [lia|]; split; [simpl; lia|]; split.
      * rewrite dec3 by lia. rewrite enc3 by (first [lia | destruct (Z.eq_dec (bval a) 237%Z); [|destruct (Z.eq_dec (bval a) 224%Z)]; lia]).
        rewrite !byte_bval; reflexivity.
      * intros Y; simpl; unfold DecodeRune; cbv zeta; rewrite Hlt, F.
        replace (in_range lo hi (bval a1)) with true by (symmetry; apply in_range_true; lia).
        rewrite R2; reflexivity.
    + apply Nat.leb_gt in S3.
      destruct t2 as [|a3 t3]; [bad H Hne|].
      destruct (in_range locb hicb (bval a3)) eqn:R3; cbn [negb] in H; [|bad H Hne].
      pose proof R3 as R3'; apply in_range_true in R3'; unfold locb, hicb in R3'.
      destruct FC as [(-> & _)|[(-> & _)|(-> & B0 & L1 & H1 & E0 & E1)]]; [lia|lia|].
      injection H as <- <-.
      split; [lia|]; split; [simpl; lia|]; split.
      * rewrite dec4 by lia. rewrite enc4 by (destruct (Z.eq_dec (bval a) 240%Z); [|destruct (Z.eq_dec (bval a) 244%Z)]; lia).
        rewrite !byte_bval; reflexivity.
      * intros Y; simpl; unfold DecodeRune; cbv zeta; rewrite Hlt, F.
        replace (in_range lo hi (bval a1)) with true by (symmetry; apply in_range_true; lia).
        rewrite R2, R3; reflexivity.
Qed.

Lemma ascii_piece a fd E :
  (bval a <? 128)%Z = true -> htmlSafe (bval a) = false ->
  unquote_loop (S fd) (escape_ascii a ++ E) =
  match unquote_loop fd E with Some t => Some (String a t) | None => None end.
Proof.
  intros H1 H2.
  destruct a as [[] [] [] [] [] [] [] []];
    try (vm_compute in H1; discriminate H1); try (vm_compute in H2; discriminate H2);
    simpl;
    repeat match goal with |- context [unquote_loop fd ?x] => progress change x with E end;
    destruct (unquote_loop fd E); vm_compute; reflexivity.
Qed.

Lemma sapp_nil (y : string) : "" ++ y = y.
Proof. reflexivity. Qed.

Lemma sapp_cons a (x y : string) : String a x ++ y = String a (x ++ y).
Proof. reflexivity. Qed.

Ltac srw := rewrite ?sapp_nil, ?sapp_cons in *.

Lemma sapp_assoc (x y z : string) : (x ++ y) ++ z = x ++ (y ++ z).
Proof. induction x; srw; congruence. Qed.

Lemma slen_app (x y : string) : String.length (x ++ y) = (String.length x + String.length y)%nat.
Proof. induction x; srw; simpl; congruence. Qed.

Lemma stake_sdrop n s : stake n s ++ sdrop n s = s.
Proof. revert s; induction n; destruct s; simpl; srw; congruence. Qed.

Lemma slen_stake n s : (n <= String.length s)%nat -> String.length (stake n s) = n.
Proof. revert s; induction n; destruct s; simpl; intros; try lia; f_equal; apply IHn; lia. Qed.

Lemma slen_sdrop n s : String.length (sdrop n s) = (String.length s - n)%nat.
Proof. revert s; induction n; destruct s; simpl; auto. Qed.

Lemma sdrop_app n x y : String.length x = n -> sdrop n (x ++ y) = y.
Proof. revert n; induction x; intros [|n] H; srw; simpl in *; try lia; auto. Qed.

Lemma stake_app n x y : String.length x = n -> stake n (x ++ y) = x.
Proof. revert n; induction x; intros [|n] H; srw; simpl in *; try lia; auto. f_equal; auto. Qed.

Lemma unquote_loop_plain fd a Y :
  (bval a <? 128)%Z = true -> htmlSafe (bval a) = true ->
  unquote_loop (S fd) (String a Y) =
  match unquote_loop fd Y with Some t => Some (String a t) | None => None end.
Proof.
  intros H1 H2. unfold htmlSafe in H2.
  apply andb_true_iff in H2 as [H2 H3]. apply Z.leb_le in H2.
  rewrite !negb_true_iff, !orb_false_iff in H3. destruct H3 as [[[[H3 H4] H5] H6] H7].
  simpl. rewrite H4. unfold RuneSelf. rewrite H1, H3.
  replace (bval a <? 32)%Z with false by (symmetry; apply Z.ltb_ge; lia).
  reflexivity.
Qed.

Lemma unquote_loop_rune fd a X :
  (128 <= bval a)%Z ->
  unquote_loop (S fd) (String a X) =
  let '(rr, size) := DecodeRune (String a X) in
  match unquote_loop fd (sdrop size (String a X)) with
  | Some t => Some (EncodeRune rr ++ t) | None => None end.
Proof.
  intros H. cbn [unquote_loop].
  replace (bval a =? 92)%Z with false by (symmetry; apply Z.eqb_neq; lia).
  replace (bval a =? 34)%Z with false by (symmetry; apply Z.eqb_neq; lia).
  replace (bval a <? 32)%Z with false by (symmetry; apply Z.ltb_ge; lia).
  replace (bval a <? RuneSelf)%Z with false by (symmetry; apply Z.ltb_ge; unfold RuneSelf; lia).
  reflexivity.
Qed.

Lemma unquote_loop_sep c fd Y : c = 8232%Z \/ c = 8233%Z ->
  unquote_loop (S fd) ("\u202" ++ String (hex (Z.land c 15)) Y) =
  match unquote_loop fd Y with Some t => Some (EncodeRune c ++ t) | None => None end.
Proof.
  intros [-> | ->]; simpl;
    repeat match goal with |- context [unquote_loop fd ?x] => progress change x with Y end;
    destruct (unquote_loop fd Y); vm_compute; reflexivity.
Qed.

Lemma decode_ascii a t : (bval a <? 128)%Z = true -> DecodeRune (String a t) = (bval a, 1%nat).
Proof. intros H. unfold DecodeRune; cbv zeta. unfold RuneSelf; rewrite H; reflexivity. Qed.

Lemma escape_len a : (1 <= String.length (escape_ascii a))%nat.
Proof.
  unfold escape_ascii; cbv zeta.
  repeat match goal with |- context [if ?b then _ else _] => destruct b end; simpl; lia.
Qed.

Lemma unquote_loop_nil fd : unquote_loop fd "" = Some "".
Proof. destruct fd; reflexivity. Qed.

Lemma encode_unquote_loop f s :
  (String.length s <= f)%nat -> valid_loop f s = true ->
  forall fd, (String.length (encode_loop f s) <= fd)%nat ->
  unquote_loop fd (encode_loop f s) = Some s.
Proof.
  revert s; induction f as [|f IH]; intros s Hl Hv fd Hfd.
  { destruct s; simpl in Hl; [|lia]. apply unquote_loop_nil. }
  destruct s as [|a rest]; [apply unquote_loop_nil|].
  cbn [encode_loop valid_loop] in *. unfold RuneSelf in *.
  destruct (bval a <? 128)%Z eqn:Ha.
  - rewrite (decode_ascii a rest Ha) in Hv.
    assert (Hv' : valid_loop f rest = true).
    { revert Hv. destruct ((bval a =? RuneError)%Z && (1 =? 1)%nat); [discriminate|auto]. }
    simpl in Hl.
    destruct (htmlSafe (bval a)) eqn:Hs.
    + destruct fd as [|fd]; simpl in Hfd; [lia|].
      rewrite unquote_loop_plain by assumption.
      rewrite IH by (auto; lia). reflexivity.
    + rewrite slen_app in Hfd. pose proof (escape_len a).
      destruct fd as [|fd]; [lia|].
      rewrite ascii_piece by assumption.
      rewrite IH by (auto; lia). reflexivity.
  - apply Z.ltb_ge in Ha.
    destruct (DecodeRune (String a rest)) as [c size] eqn:D.
    destruct ((c =? RuneError)%Z && (size =? 1)%nat) eqn:Hne; [discriminate Hv|].
    destruct (rune_ok a rest c size Ha D Hne) as (Hsz & Hsl & Henc & Hdec).
    assert (Hl' : (String.length (sdrop size (String a rest)) <= f)%nat)
      by (rewrite slen_sdrop; simpl in *; lia).
    destruct ((c =? 8232)%Z || (c =? 8233)%Z) eqn:Hsep.
    + rewrite slen_app in Hfd. simpl in Hfd.
      destruct fd as [|fd]; [lia|].
      rewrite unquote_loop_sep
        by (apply orb_true_iff in Hsep as [E|E]; apply Z.eqb_eq in E; auto).
      rewrite IH by (auto; lia).
      rewrite Henc, stake_sdrop; reflexivity.
    + rewrite slen_app, slen_stake in Hfd by lia.
      destruct size as [|size']; [lia|].
      destruct fd as [|fd]; [lia|].
      change (stake (S size') (String a rest)) with (String a (stake size' rest)).
      rewrite sapp_cons, unquote_loop_rune by lia.
      change (String a (stake size' rest ++ encode_loop f (sdrop (S size') (String a rest))))
        with (stake (S size') (String a rest) ++ encode_loop f (sdrop (S size') (String a rest))).
      rewrite Hdec, sdrop_app by (apply slen_stake; lia).
      rewrite IH by (auto; lia).
      rewrite Henc, stake_sdrop; reflexivity.
Qed.

Lemma sapp_nil_r (x : string) : x ++ "" = x.
Proof. induction x; srw; congruence. Qed.

Lemma stake_add n m s : stake (n + m) s = stake n s ++ stake m (sdrop n s).
Proof. revert s; induction n; destruct s; simpl; srw; auto; destruct m; reflexivity || (f_equal; auto). Qed.

Lemma sdrop_add n m s : sdrop (n + m) s = sdrop m (sdrop n s).
Proof. revert s; induction n; destruct s; simpl; auto; destruct m; reflexivity. Qed.

Lemma escape_head a : exists t, escape_ascii a = String "\" t.
Proof.
  unfold escape_ascii; cbv zeta.
  repeat match goal with |- context [if ?b then _ else _] => destruct b end; eexists; reflexivity.
Qed.

Lemma plain_prefix_backslash g t : plain_prefix g (String "\" t) = O.
Proof. destruct g; reflexivity. Qed.

Lemma encode_plain_prefix f s :
  (String.length s <= f)%nat -> valid_loop f s = true ->
  forall g, let E := encode_loop f s in let r := plain_prefix g E in
  stake r E = stake r s /\
  exists f', sdrop r E = encode_loop f' (sdrop r s) /\
    (String.length (sdrop r s) <= f')%nat /\ valid_loop f' (sdrop r s) = true.
Proof.
  assert (Z0 : forall f s E, E = encode_loop f s -> (String.length s <= f)%nat ->
            valid_loop f s = true ->
            stake 0 E = stake 0 s /\
            exists f', sdrop 0 E = encode_loop f' (sdrop 0 s) /\
              (String.length (sdrop 0 s) <= f')%nat /\ valid_loop f' (sdrop 0 s) = true).
  { intros f0 s0 E -> H1 H2; split; [reflexivity|]; exists f0; auto. }
  revert s; induction f as [|f IH]; intros s Hl Hv g; cbv zeta.
  { destruct s; simpl in Hl; [|lia].
    replace (plain_prefix g (encode_loop 0 "")) with O by (destruct g; reflexivity).
    eapply Z0; eauto. }
  destruct g as [|g]; [eapply Z0; eauto|].
  destruct s as [|a rest].
  { replace (plain_prefix (S g) (encode_loop (S f) "")) with O by reflexivity.
    eapply Z0; eauto. }
  cbn [encode_loop valid_loop] in Hv |- *. unfold RuneSelf in *.
  destruct (bval a <? 128)%Z eqn:Ha.
  - rewrite (decode_ascii a rest Ha) in Hv.
    assert (Hv' : valid_loop f rest = true).
    { revert Hv. destruct ((bval a =? RuneError)%Z && (1 =? 1)%nat); [discriminate|auto]. }
    simpl in Hl.
    destruct (htmlSafe (bval a)) eqn:Hs.
    + unfold htmlSafe in Hs.
      apply andb_true_iff in Hs as [H2 H3]. apply Z.leb_le in H2.
      rewrite !negb_true_iff, !orb_false_iff in H3. destruct H3 as [[[[H3 H4] H5] H6] H7].
      cbn [plain_prefix]. unfold RuneSelf.
      rewrite H3, H4, Ha.
      replace (bval a <? 32)%Z with false by (symmetry; apply Z.ltb_ge; lia).
      cbn [orb].
      destruct (IH rest ltac:(lia) Hv' g) as [IH1 [f' IH2]].
      cbn [stake sdrop]. rewrite IH1. split; [reflexivity|]. exists f'; exact IH2.
    + destruct (escape_head a) as [t Et]; rewrite Et, sapp_cons, plain_prefix_backslash.
      rewrite <- sapp_cons, <- Et.
      split; [reflexivity|]. exists (S f). cbn [sdrop]. split; [|split; [simpl; lia|]].
      * cbn [encode_loop]. unfold RuneSelf. rewrite Ha, Hs. reflexivity.
      * cbn [valid_loop]. rewrite (decode_ascii a rest Ha). exact Hv.
  - pose proof Ha as Ha'. apply Z.ltb_ge in Ha.
    destruct (DecodeRune (String a rest)) as [c size] eqn:D.
    destruct ((c =? RuneError)%Z && (size =? 1)%nat) eqn:Hne; [discriminate Hv|].
    destruct (rune_ok a rest c size Ha D Hne) as (Hsz & Hsl & Henc & Hdec).
    assert (Hl' : (String.length (sdrop size (String a rest)) <= f)%nat)
      by (rewrite slen_sdrop; simpl in *; lia).
    assert (Hre : encode_loop (S f) (String a rest) =
                  if (c =? 8232)%Z || (c =? 8233)%Z then
                    "\u202" ++ String (hex (Z.land c 15)) (encode_loop f (sdrop size (String a rest)))
                  else stake size (String a rest) ++ encode_loop f (sdrop size (String a rest))).
    { cbn [encode_loop]. unfold RuneSelf. rewrite Ha', D, Hne. reflexivity. }
    destruct ((c =? 8232)%Z || (c =? 8233)%Z) eqn:Hsep.
    + change ("\u202" ++ String (hex (Z.land c 15)) (encode_loop f (sdrop size (String a rest))))
        with (String "\" ("u202" ++ String (hex (Z.land c 15)) (encode_loop f (sdrop size (String a rest))))).
      rewrite plain_prefix_backslash.
      split; [reflexivity|]. exists (S f). cbn [sdrop]. split; [|split; [simpl in *; lia|]].
      * rewrite Hre; try rewrite Hsep; reflexivity.
      * cbn [valid_loop]. rewrite D, Hne. exact Hv.
    + destruct size as [|size']; [lia|].
      set (E' := encode_loop f (sdrop (S size') (String a rest))).
      change (stake (S size') (String a rest) ++ E') with (String a (stake size' rest ++ E')).
      cbn [plain_prefix]. unfold RuneSelf.
      replace (bval a =? 92)%Z with false by (symmetry; apply Z.eqb_neq; lia).
      replace (bval a =? 34)%Z with false by (symmetry; apply Z.eqb_neq; lia).
      replace (bval a <? 32)%Z with false by (symmetry; apply Z.ltb_ge; lia).
      rewrite Ha'. cbn [orb].
      change (String a (stake size' rest ++ E')) with (stake (S size') (String a rest) ++ E').
      rewrite Hdec, Hne.
      rewrite sdrop_app by (apply slen_stake; lia).
      destruct (IH (sdrop (S size') (String a rest)) Hl' Hv g) as [IH1 [f' (IH2 & IH3 & IH4)]].
      fold E' in IH1, IH2.
      set (r' := plain_prefix g E') in *.
      split.
      * rewrite stake_add, sdrop_app, stake_app by (apply slen_stake; lia).
        rewrite IH1, stake_add. reflexivity.
      * exists f'. rewrite !sdrop_add, sdrop_app by (apply slen_stake; lia). auto.
Qed.

Lemma get_app_last (E : string) c : String.get (String.length E) (E ++ String c "") = Some c.
Proof. induction E; srw; simpl; auto. Qed.

Lemma substring_app_last (E : string) c : substring 0 (String.length E) (E ++ String c "") = E.
Proof. induction E; srw; simpl; [reflexivity|]. f_equal; exact IHE. Qed.

Lemma strip_quotes_encoded (E : string) : strip_quotes (String dq (E ++ String dq "")) = Some E.
Proof.
  unfold strip_quotes. change (bval dq =? 34)%Z with true. cbv iota.
  rewrite slen_app. simpl String.length.
  replace (String.length E + 1 - 1)%nat with (String.length E) by lia.
  rewrite get_app_last. change (bval dq =? 34)%Z with true. cbv iota.
  rewrite substring_app_last. reflexivity.
Qed.

Lemma encode_loop_empty f s : (String.length s <= f)%nat -> encode_loop f s = "" -> s = "".
Proof.
  intros Hl He. destruct s as [|a rest]; [reflexivity|].
  destruct f as [|f]; [simpl in Hl; lia|].
  exfalso. cbn [encode_loop] in He. revert He.
  destruct (bval a <? RuneSelf)%Z.
  - destruct (htmlSafe (bval a)); [discriminate|].
    destruct (escape_head a) as [t ->]. discriminate.
  - destruct (DecodeRune (String a rest)) as [c size] eqn:D.
    destruct ((c =? RuneError)%Z && (size =? 1)%nat); [discriminate|].
    destruct ((c =? 8232)%Z || (c =? 8233)%Z); [discriminate|].
    destruct size as [|size]; [|discriminate].
    (* DecodeRune of a non-empty string consumes at least one byte *)
    unfold DecodeRune in D. cbv zeta in D.
    repeat match type of D with
    | context [if ?b then _ else _] => destruct b
    | context [match first ?x with _ => _ end] => destruct (first x) as [[[? ?] ?]|]
    | context [match ?x with _ => _ end] => destruct x
    end; try discriminate D; injection D; intros; discriminate.
Qed.

Lemma unquote_encode_string s : ValidString s = true -> unquote (encode_string s) = Some s.
Proof.
  intros Hv. unfold unquote, encode_string. rewrite strip_quotes_encoded.
  set (E := encode_loop (String.length s) s).
  destruct (encode_plain_prefix (String.length s) s (le_n _) Hv (String.length E))
    as [H1 [f' (H2 & H3 & H4)]].
  fold E in H1, H2.
  set (r := plain_prefix (String.length E) E) in *.
  destruct (r =? String.length E)%nat eqn:Hr.
  - apply Nat.eqb_eq in Hr.
    assert (Hd : sdrop r E = "") by (destruct (sdrop r E) eqn:X; auto;
      pose proof (slen_sdrop r E) as L; rewrite X in L; simpl in L; lia).
    rewrite Hd in H2. symmetry in H2. apply encode_loop_empty in H2; [|exact H3].
    rewrite <- (stake_sdrop r E), <- (stake_sdrop r s), Hd, H2, H1. reflexivity.
  - rewrite H2, encode_unquote_loop by (auto; rewrite <- H2, slen_sdrop; lia).
    rewrite H1, stake_sdrop. reflexivity.
Qed.

End UTF8Facts.

(** ** [MarshalJSON] output decodes back to the links *)
Module RoundTrip.
Import GoJSON Model UTF8Facts.
Local Open Scope list_scope.

Section WithURL.
Context {URL : Type} (URL_String : URL -> string).
Implicit Types (m : @Movie URL) (us : list URL).

(** A JSON string field decodes back to the bytes it was written from
    when those bytes are valid UTF-8. *)
Lemma decode_string_field s :
  ValidString s = true -> unquote (json_encode (JString s)) = Some s.
Proof. exact (unquote_encode_string s). Qed.

Lemma decode_string_fields us :
  Forall (fun v => ValidString (URL_String v) = true) us ->
  map (fun v => unquote (json_encode (JString (URL_String v)))) us =
  map (fun v => Some (URL_String v)) us.
Proof.
  induction 1 as [|v us Hv _ IH]; [reflexivity|].
  cbn [map]. rewrite decode_string_field by exact Hv. rewrite IH. reflexivity.
Qed.

(** C6 (as corrected): for a movie with a non-nil [DownloadLink] and a
    non-empty [SDownloadLink] of non-nil links, whose URLs' string forms
    are valid UTF-8, [MarshalJSON] writes [DownloadLink] as a JSON string
    of the URL's string form and [SDownloadLink] as an array of JSON
    strings of the URLs' string forms in order, and decoding each of these
    JSON strings ([unquote] of encoding/json) gives back that string form
    byte for byte. *)
Theorem MarshalJSON_link_round_trip m u us :
  DownloadLink m = Some u -> SDownloadLink m = map Some us -> us <> [] ->
  ValidString (URL_String u) = true ->
  Forall (fun v => ValidString (URL_String v) = true) us ->
  (MarshalJSON URL_String m =
    Return (json_encode (JObject
      [("Index", JNumber (Index m));
       ("Title", JString (Title m));
       ("CoverPhotoLink", JString (CoverPhotoLink m));
       ("Description", JString (Description m));
       ("Size", JString (Size m));
       ("Year", JNumber (Year m));
       ("IsSeries", JBool (IsSeries m));
       ("UploadDate", JString (UploadDate m));
       ("Source", JString (Source m));
       ("DownloadLink", JString (URL_String u));
       ("SDownloadLink", JArray (map (fun v => JString (URL_String v)) us))]), None)) /\
  unquote (json_encode (JString (URL_String u))) = Some (URL_String u) /\
  map (fun v => unquote (json_encode (JString (URL_String v)))) us =
  map (fun v => Some (URL_String v)) us.
Proof.
  intros Hd Hs Hne Hu Hus; split; [|split].
  - rewrite (ModelFacts.MarshalJSON_links URL_String m u us Hd Hs).
    destruct us as [|v us]; [contradiction|].
    unfold MovieJSON_value, json_of_slice; simpl; rewrite map_map; reflexivity.
  - apply decode_string_field; exact Hu.
  - apply decode_string_fields; exact Hus.
Qed.

End WithURL.

End RoundTrip.

(** ** [Movie.String]: the title and year can be read back *)
Module MovieStringFacts.
Import Model GoJSON UTF8Facts ByteClasses.


Lemma all_bytes_app P x y : all_bytes P (x ++ y) = all_bytes P x && all_bytes P y.
Proof. induction x as [|c x IH]; [reflexivity|]. rewrite sapp_cons; simpl. rewrite IH, andb_assoc; reflexivity. Qed.

Lemma pretty_N_go_bytes P x s :
  (forall d, P (pretty_N_char d) = true) -> all_bytes P s = true ->
  all_bytes P (pretty_N_go x s) = true.
Proof.
  intros HP. revert s. induction (N.lt_wf_0 x) as [x _ IH]; intros s Hs.
  destruct (N.eq_dec x 0%N) as [->|Hx]; [rewrite pretty_N_go_0; exact Hs|].
  rewrite pretty_N_go_step by lia.
  apply IH; [apply N.div_lt; lia|]. simpl; rewrite HP; exact Hs.
Qed.

Lemma pretty_Z_bytes P (z : Z) :
  (forall d, P (pretty_N_char d) = true) -> P "-"%char = true ->
  all_bytes P (pretty z) = true.
Proof.
  intros HP Hm. assert (H0 : P "0"%char = true) by exact (HP 0%N).
  destruct z as [|p|p]; unfold pretty, pretty_Z, pretty_positive, pretty_N.
  - simpl; rewrite H0; reflexivity.
  - cbv [pretty pretty_positive pretty_N].
    destruct (decide (N.pos p = 0%N)); [simpl; rewrite H0; reflexivity|].
    apply pretty_N_go_bytes; auto.
  - rewrite sapp_cons, sapp_nil. simpl. rewrite Hm.
    cbv [pretty pretty_positive pretty_N].
    destruct (decide (N.pos p = 0%N)); [simpl; rewrite H0; reflexivity|].
    apply pretty_N_go_bytes; auto.
Qed.


Lemma split_at_last_paren T1 T2 P1 P2 :
  all_bytes not_paren P1 = true -> all_bytes not_paren P2 = true ->
  T1 ++ String "(" P1 = T2 ++ String "(" P2 -> T1 = T2 /\ P1 = P2.
Proof.
  intros H1 H2. revert T2; induction T1 as [|c T1 IH]; intros [|d T2] E;
    rewrite ?sapp_nil, ?sapp_cons in E.
  - injection E as E. auto.
  - injection E as E1 E2. subst P1. rewrite all_bytes_app in H1. simpl in H1.
    rewrite andb_false_r in H1. discriminate H1.
  - injection E as E1 E2. subst P2. rewrite all_bytes_app in H2. simpl in H2.
    rewrite andb_false_r in H2. discriminate H2.
  - injection E as E1 E2. subst d. destruct (IH T2 E2) as [-> ->]. auto.
Qed.

Lemma sapp_cancel_r (x z y : string) : x ++ y = z ++ y -> x = z.
Proof.
  revert z; induction x as [|c x IH]; intros [|d z] E; rewrite ?sapp_nil, ?sapp_cons in E.
  - reflexivity.
  - exfalso. apply (f_equal String.length) in E. simpl in E. rewrite slen_app in E. lia.
  - exfalso. apply (f_equal String.length) in E. simpl in E. rewrite slen_app in E. lia.
  - injection E as -> E. f_equal. auto.
Qed.

Lemma Movie_String_shape {URL} (m : @Movie URL) :
  Movie_String m = (Title m ++ " ") ++ String "(" (pretty (Year m) ++ ")").
Proof. unfold Movie_String. rewrite sapp_assoc. reflexivity. Qed.

Lemma pretty_no_paren (z : Z) : all_bytes not_paren (pretty z ++ ")") = true.
Proof.
  rewrite all_bytes_app. rewrite pretty_Z_bytes; [reflexivity| |reflexivity].
  intros d; unfold pretty_N_char; repeat case_match; reflexivity.
Qed.

(** X1: [Movie.String] is injective on the title and the year: two movies
    with the same [String()] text have the same [Title] and the same
    [Year], whatever bytes the titles hold. *)
Theorem Movie_String_injective {URL} (m1 m2 : @Movie URL) :
  Movie_String m1 = Movie_String m2 -> Title m1 = Title m2 /\ Year m1 = Year m2.
Proof.
  rewrite !Movie_String_shape. intros E.
  apply split_at_last_paren in E as [E1 E2]; try apply pretty_no_paren.
  split; [exact (sapp_cancel_r _ _ _ E1)|].
  apply (inj pretty). exact (sapp_cancel_r _ _ _ E2).
Qed.

End MovieStringFacts.
(** ** The bytes [json.Marshal] writes: no control byte, no [<], [>] or [&] *)
Module HtmlSafe.
Import GoJSON GoJSONFacts UTF8Facts ByteClasses MovieStringFacts.


Lemma all_bytes_get P s i c : all_bytes P s = true -> String.get i s = Some c -> P c = true.
Proof.
  revert i; induction s as [|a s IH]; intros [|i] H G; simpl in *; try discriminate.
  - injection G as <-. apply andb_true_iff in H as [H _]; exact H.
  - apply andb_true_iff in H as [_ H]; exact (IH i H G).
Qed.

Lemma hex_safe n : json_out_byte (hex n) = true.
Proof.
  unfold hex. destruct (String.get _ _) eqn:G; [|reflexivity].
  exact (all_bytes_get json_out_byte "0123456789abcdef" _ _ eq_refl G).
Qed.

Lemma escape_safe a : all_bytes json_out_byte (escape_ascii a) = true.
Proof. destruct a as [[] [] [] [] [] [] [] []]; vm_compute; reflexivity. Qed.

Lemma high_safe a : (128 <= bval a)%Z -> json_out_byte a = true.
Proof. intros H. unfold json_out_byte. zb. Qed.

Lemma decode_high_bytes a t c size :
  (128 <= bval a)%Z -> DecodeRune (String a t) = (c, size) ->
  ((c =? RuneError)%Z && (size =? 1)%nat) = false ->
  all_bytes (fun b => 128 <=? bval b)%Z (stake size (String a t)) = true.
Proof.
  intros Ha H Hne.
  assert (Hlt : (bval a <? RuneSelf)%Z = false) by (apply Z.ltb_ge; unfold RuneSelf; lia).
  assert (Ha' : (128 <=? bval a)%Z = true) by (apply Z.leb_le; lia).
  unfold DecodeRune in H; cbv zeta in H; rewrite Hlt in H.
  destruct (first (bval a)) as [[[sz lo] hi]|] eqn:F; [|bad H Hne].
  destruct t as [|a1 t1]; [bad H Hne|].
  destruct (in_range lo hi (bval a1)) eqn:R1; cbn [negb] in H; [|bad H Hne].
  apply in_range_true in R1.
  pose proof (first_cases _ _ _ _ F) as FC.
  assert (B1 : (128 <=? bval a1)%Z = true) by (apply Z.leb_le; lia).
  destruct (sz <=? 2)%nat eqn:S2.
  - injection H as <- <-. simpl. rewrite Ha', B1. reflexivity.
  - destruct t1 as [|a2 t2]; [bad H Hne|].
    destruct (in_range locb hicb (bval a2)) eqn:R2; cbn [negb] in H; [|bad H Hne].
    apply in_range_true in R2; unfold locb, hicb in R2.
    assert (B2 : (128 <=? bval a2)%Z = true) by (apply Z.leb_le; lia).
    destruct (sz <=? 3)%nat eqn:S3.
    + injection H as <- <-. simpl. rewrite Ha', B1, B2. reflexivity.
    + destruct t2 as [|a3 t3]; [bad H Hne|].
      destruct (in_range locb hicb (bval a3)) eqn:R3; cbn [negb] in H; [|bad H Hne].
      apply in_range_true in R3; unfold locb, hicb in R3.
      assert (B3 : (128 <=? bval a3)%Z = true) by (apply Z.leb_le; lia).
      injection H as <- <-. simpl. rewrite Ha', B1, B2, B3. reflexivity.
Qed.

Lemma all_bytes_mono (P Q : ascii -> bool) s :
  (forall a, P a = true -> Q a = true) -> all_bytes P s = true -> all_bytes Q s = true.
Proof.
  intros HPQ; induction s as [|a s IH]; simpl; [reflexivity|].
  intros H; apply andb_true_iff in H as [H1 H2]. rewrite (HPQ a H1), (IH H2); reflexivity.
Qed.

Lemma encode_loop_safe f s : all_bytes json_out_byte (encode_loop f s) = true.
Proof.
  revert s; induction f as [|f IH]; intros s; [reflexivity|].
  destruct s as [|a rest]; [reflexivity|]. cbn [encode_loop].
  destruct (bval a <? RuneSelf)%Z eqn:Hlt.
  - destruct (htmlSafe (bval a)) eqn:Hs.
    + simpl. rewrite IH, andb_true_r. unfold htmlSafe in Hs. unfold json_out_byte.
      revert Hs; zb.
    + rewrite all_bytes_app, escape_safe, IH; reflexivity.
  - destruct (DecodeRune (String a rest)) as [c size] eqn:D.
    destruct ((c =? RuneError)%Z && (size =? 1)%nat) eqn:E.
    + rewrite all_bytes_app, IH; reflexivity.
    + destruct ((c =? 8232)%Z || (c =? 8233)%Z).
      * rewrite all_bytes_app. simpl. rewrite hex_safe, IH. reflexivity.
      * rewrite all_bytes_app, IH, andb_true_r.
        apply (all_bytes_mono (fun b => 128 <=? bval b)%Z).
        -- intros b Hb; apply high_safe, Z.leb_le, Hb.
        -- apply (decode_high_bytes a rest c size); [unfold RuneSelf in Hlt; apply Z.ltb_ge in Hlt; exact Hlt|exact D|exact E].
Qed.

Lemma encode_string_safe s : all_bytes json_out_byte (encode_string s) = true.
Proof.
  unfold encode_string. simpl. rewrite all_bytes_app, encode_loop_safe. reflexivity.
Qed.

Lemma pretty_safe (z : Z) : all_bytes json_out_byte (pretty z) = true.
Proof.
  apply pretty_Z_bytes; [|reflexivity].
  intros d; unfold pretty_N_char; repeat case_match; reflexivity.
Qed.

Lemma json_encode_safe j : all_bytes json_out_byte (json_encode j) = true.
Proof.
  revert j; fix IH 1; intros [|b|z|s|l|fs].
  - reflexivity.
  - destruct b; reflexivity.
  - apply pretty_safe.
  - apply encode_string_safe.
  - cbn [json_encode]. rewrite sapp_cons, sapp_nil. simpl. rewrite all_bytes_app.
    match goal with |- context [?F l] =>
      assert (HF : all_bytes json_out_byte (F l) = true) end.
    { revert l. fix IHl 1. intros [|x t]; [reflexivity|].
      pose proof (IHl t) as Ht. destruct t as [|y r].
      - apply IH.
      - rewrite all_bytes_app, IH, all_bytes_app, Ht. reflexivity. }
    rewrite HF. reflexivity.
  - cbn [json_encode]. rewrite sapp_cons, sapp_nil. simpl. rewrite all_bytes_app.
    match goal with |- context [?F fs] =>
      assert (HF : all_bytes json_out_byte (F fs) = true) end.
    { revert fs. fix IHl 1. intros [|[k v] t]; [reflexivity|].
      pose proof (IHl t) as Ht. destruct t as [|[k' v'] r].
      - change (all_bytes json_out_byte (encode_string k ++ ":" ++ json_encode v) = true).
        rewrite all_bytes_app, encode_string_safe, all_bytes_app, IH. reflexivity.
      - rewrite all_bytes_app, encode_string_safe, all_bytes_app, all_bytes_app, IH,
          all_bytes_app, Ht. reflexivity. }
    rewrite HF. reflexivity.
Qed.

End HtmlSafe.

(** ** What [json.Marshal] writes is valid UTF-8 *)
Module ValidOut.
Import GoJSON GoJSONFacts UTF8Facts ByteClasses MovieStringFacts HtmlSafe.

Lemma decode_size a t c size :
  DecodeRune (String a t) = (c, size) -> (1 <= size <= String.length (String a t))%nat.
Proof.
  unfold DecodeRune; cbv zeta; intros H.
  repeat (destruct_and? ; case_match); simplify_eq; simpl; lia.
Qed.

Lemma sdrop_len n s : (1 <= n)%nat -> s <> "" -> (String.length (sdrop n s) < String.length s)%nat.
Proof. intros Hn Hs. rewrite slen_sdrop. destruct s; [congruence|]. simpl. lia. Qed.

Lemma valid_fuel f g s :
  (String.length s <= f)%nat -> (String.length s <= g)%nat -> valid_loop f s = valid_loop g s.
Proof.
  revert g s; induction f as [|f IH]; intros g s Hf Hg.
  - destruct s; [|simpl in Hf; lia]. destruct g; reflexivity.
  - destruct s as [|a t]; [destruct g; reflexivity|].
    destruct g as [|g]; [simpl in Hg; lia|].
    cbn [valid_loop].
    destruct (DecodeRune (String a t)) as [c size] eqn:D.
    destruct ((c =? RuneError)%Z && (size =? 1)%nat); [reflexivity|].
    pose proof (decode_size a t c size D) as Hs.
    apply IH; rewrite slen_sdrop; simpl in *; lia.
Qed.

Lemma valid_cons_ascii a t :
  (bval a <? 128)%Z = true -> ValidString (String a t) = ValidString t.
Proof.
  intros Ha. unfold ValidString. cbn [String.length valid_loop].
  rewrite decode_ascii by exact Ha.
  replace ((bval a =? RuneError)%Z && (1 =? 1)%nat) with false.
  - reflexivity.
  - apply Z.ltb_lt in Ha. unfold RuneError. destruct (Z.eqb_spec (bval a) 65533); [lia|reflexivity].
Qed.

Lemma valid_app x y : ValidString x = true -> ValidString y = true -> ValidString (x ++ y) = true.
Proof.
  intros Hx Hy.
  remember (String.length x) as n eqn:Hn. revert x Hn Hx.
  induction (lt_wf n) as [n _ IH]; intros x Hn Hx.
  destruct x as [|a t]; [exact Hy|].
  destruct (bval a <? 128)%Z eqn:Ha.
  - rewrite sapp_cons, valid_cons_ascii by exact Ha.
    rewrite valid_cons_ascii in Hx by exact Ha.
    apply (IH (String.length t)); [simpl in Hn; lia|reflexivity|exact Hx].
  - assert (Ha' : (128 <= bval a)%Z) by (apply Z.ltb_ge; exact Ha).
    unfold ValidString in Hx. cbn [String.length valid_loop] in Hx.
    destruct (DecodeRune (String a t)) as [c size] eqn:D.
    destruct ((c =? RuneError)%Z && (size =? 1)%nat) eqn:E; [discriminate|].
    destruct (rune_ok a t c size Ha' D E) as (Hsz & Hle & _ & Hdec).
    assert (Hsplit : String a t ++ y = stake size (String a t) ++ (sdrop size (String a t) ++ y)).
    { rewrite <- sapp_assoc, stake_sdrop. reflexivity. }
    assert (Hrest : ValidString (sdrop size (String a t)) = true).
    { unfold ValidString. rewrite <- Hx. apply valid_fuel; rewrite slen_sdrop; simpl in *; lia. }
    assert (IHr : ValidString (sdrop size (String a t) ++ y) = true).
    { apply (IH (String.length (sdrop size (String a t)))); [|reflexivity|exact Hrest].
      rewrite slen_sdrop; simpl in *; lia. }
    unfold ValidString. rewrite sapp_cons. cbn [String.length valid_loop].
    rewrite <- sapp_cons, Hsplit, Hdec, E.
    rewrite sdrop_app by (apply slen_stake; exact Hle).
    rewrite <- IHr. unfold ValidString. apply valid_fuel.
    + rewrite !slen_app, slen_sdrop. simpl in *. lia.
    + lia.
Qed.


Lemma valid_ascii s : all_bytes is_ascii_byte s = true -> ValidString s = true.
Proof.
  induction s as [|a s IH]; [reflexivity|].
  simpl; intros H; apply andb_true_iff in H as [H1 H2].
  rewrite valid_cons_ascii by exact H1. exact (IH H2).
Qed.

Lemma hex_ascii n : is_ascii_byte (hex n) = true.
Proof.
  unfold hex. destruct (String.get _ _) eqn:G; [|reflexivity].
  exact (all_bytes_get is_ascii_byte "0123456789abcdef" _ _ eq_refl G).
Qed.

Lemma escape_ascii_ascii a : all_bytes is_ascii_byte (escape_ascii a) = true.
Proof. destruct a as [[] [] [] [] [] [] [] []]; vm_compute; reflexivity. Qed.

Lemma valid_loop_nil f : valid_loop f "" = true.
Proof. destruct f; reflexivity. Qed.

Lemma valid_one_rune x c size :
  DecodeRune x = (c, size) -> ((c =? RuneError)%Z && (size =? 1)%nat) = false ->
  String.length x = size -> ValidString x = true.
Proof.
  intros D E L. destruct x as [|b u]; [reflexivity|].
  unfold ValidString. cbn [String.length valid_loop]. rewrite D, E.
  assert (Hs : String.length (sdrop size (String b u)) = 0%nat) by (rewrite slen_sdrop; lia).
  destruct (sdrop size (String b u)); [apply valid_loop_nil|discriminate].
Qed.

Lemma valid_rune a t c size :
  (128 <= bval a)%Z -> DecodeRune (String a t) = (c, size) ->
  ((c =? RuneError)%Z && (size =? 1)%nat) = false ->
  ValidString (stake size (String a t)) = true.
Proof.
  intros Ha D E.
  destruct (rune_ok a t c size Ha D E) as (Hsz & Hle & _ & Hdec).
  pose proof (Hdec "") as Hd. rewrite sapp_nil_r in Hd.
  apply (valid_one_rune _ c size Hd E). apply slen_stake; exact Hle.
Qed.

Lemma encode_loop_valid f s : ValidString (encode_loop f s) = true.
Proof.
  revert s; induction f as [|f IH]; intros s; [reflexivity|].
  destruct s as [|a rest]; [reflexivity|]. cbn [encode_loop].
  destruct (bval a <? RuneSelf)%Z eqn:Hlt.
  - destruct (htmlSafe (bval a)).
    + rewrite valid_cons_ascii by exact Hlt. apply IH.
    + apply valid_app; [apply valid_ascii, escape_ascii_ascii|apply IH].
  - destruct (DecodeRune (String a rest)) as [c size] eqn:D.
    destruct ((c =? RuneError)%Z && (size =? 1)%nat) eqn:E.
    + apply valid_app; [reflexivity|apply IH].
    + destruct ((c =? 8232)%Z || (c =? 8233)%Z).
      * apply valid_app; [reflexivity|].
        rewrite valid_cons_ascii by apply hex_ascii. apply IH.
      * apply valid_app; [|apply IH].
        apply (valid_rune a rest c size); [|exact D|exact E].
        apply Z.ltb_ge in Hlt; exact Hlt.
Qed.

Lemma encode_string_valid s : ValidString (encode_string s) = true.
Proof.
  unfold encode_string. rewrite valid_cons_ascii by reflexivity.
  apply valid_app; [apply encode_loop_valid|reflexivity].
Qed.

Lemma pretty_valid (z : Z) : ValidString (pretty z) = true.
Proof.
  apply valid_ascii, pretty_Z_bytes; [|reflexivity].
  intros d; unfold pretty_N_char; repeat case_match; reflexivity.
Qed.

Lemma json_encode_valid j : ValidString (json_encode j) = true.
Proof.
  revert j; fix IH 1; intros [|b|z|s|l|fs].
  - reflexivity.
  - destruct b; reflexivity.
  - apply pretty_valid.
  - apply encode_string_valid.
  - cbn [json_encode]. rewrite sapp_cons, sapp_nil.
    rewrite valid_cons_ascii by reflexivity.
    apply valid_app; [|reflexivity].
    revert l. fix IHl 1. intros [|x t]; [reflexivity|].
    pose proof (IHl t) as Ht. destruct t as [|y r].
    + apply IH.
    + apply valid_app; [apply IH|]. apply valid_app; [reflexivity|exact Ht].
  - cbn [json_encode]. rewrite sapp_cons, sapp_nil.
    rewrite valid_cons_ascii by reflexivity.
    apply valid_app; [|reflexivity].
    revert fs. fix IHl 1. intros [|[k v] t]; [reflexivity|].
    pose proof (IHl t) as Ht. destruct t as [|[k' v'] r].
    + apply valid_app; [apply encode_string_valid|].
      apply valid_app; [reflexivity|apply IH].
    + apply valid_app; [apply encode_string_valid|].
      apply valid_app; [reflexivity|]. apply valid_app; [apply IH|].
      apply valid_app; [reflexivity|exact Ht].
Qed.

End ValidOut.

(** ** Further properties of the lookups and of both [MarshalJSON] methods *)
Module ExtraFacts.
Import Model ModelFacts ByteClasses HtmlSafe ValidOut MovieStringFacts.
Local Open Scope list_scope.

Section Lookups.
Context {URL : Type}.
Implicit Types (s : @SearchResult URL) (t : string).


(** X3: when [GetMovieByTitle s t] returns an error, the movie it returns
    is the zero [Movie]: [MarshalJSON] on it panics with a nil pointer
    dereference (its [DownloadLink] is nil) and its [String()] is " (0)". *)
Theorem GetMovieByTitle_miss_not_marshalable (URL_String : URL -> string) s t :
  snd (GetMovieByTitle s t) <> None ->
  GetMovieByTitle s t = (zero_Movie, Some err_not_found) /\
  MarshalJSON URL_String (fst (GetMovieByTitle s t)) = Panic nil_deref /\
  Movie_String (fst (GetMovieByTitle s t)) = " (0)".
Proof.
  unfold GetMovieByTitle. intros Hne.
  destruct (lookup_loops (Movies s) t 0) as [[j [m [_ [_ [Hm _]]]]] | [_ [Hm _]]];
    rewrite Hm in Hne |- *; [contradiction Hne; reflexivity|].
  split; [reflexivity|]. split; reflexivity.
Qed.

End Lookups.

Section Marshal.
Context {URL : Type} (URL_String : URL -> string).

Lemma Props_MarshalJSON_cases (p : @PropsModel.Props URL) :
  (exists b su l, PropsModel.BaseURL p = Some b /\ PropsModel.SearchURL p = Some su /\
     PropsModel.ListURL p = Some l /\
     PropsModel.MarshalJSON URL_String p =
       Return (json_encode (JObject
         [("Name", JString (PropsModel.Name p));
          ("Description", JString (PropsModel.Description p));
          ("BaseURL", JString (URL_String b));
          ("SearchURL", JString (URL_String su));
          ("ListURL", JString (URL_String l))]), None)) \/
  ((PropsModel.BaseURL p = None \/ PropsModel.SearchURL p = None \/
    PropsModel.ListURL p = None) /\
   PropsModel.MarshalJSON URL_String p = Panic nil_deref).
Proof.
  unfold PropsModel.MarshalJSON, url_String.
  destruct (PropsModel.BaseURL p) as [b|]; [|right; split; [left|]; reflexivity].
  destruct (PropsModel.SearchURL p) as [su|]; [|right; split; [right; left|]; reflexivity].
  destruct (PropsModel.ListURL p) as [l|]; [|right; split; [right; right|]; reflexivity].
  left; exists b, su, l; repeat split; reflexivity.
Qed.

(** X4: [Props.MarshalJSON] panics with the nil pointer dereference
    exactly when [BaseURL], [SearchURL] or [ListURL] is nil, never panics
    otherwise, and never returns a non-nil error. *)
Theorem Props_MarshalJSON_nil_panics (p : @PropsModel.Props URL) :
  (PropsModel.MarshalJSON URL_String p = Panic nil_deref <->
     PropsModel.BaseURL p = None \/ PropsModel.SearchURL p = None \/
     PropsModel.ListURL p = None) /\
  (forall msg, PropsModel.MarshalJSON URL_String p = Panic msg -> msg = nil_deref) /\
  (forall r, PropsModel.MarshalJSON URL_String p = Return r -> snd r = None).
Proof.
  destruct (Props_MarshalJSON_cases p) as [(b & su & l & Hb & Hs & Hl & ->)|[Hn ->]].
  - split; [split; [discriminate|]|split; [discriminate|]].
    + rewrite Hb, Hs, Hl; intros [H|[H|H]]; discriminate H.
    + intros r Hr; injection Hr as <-; reflexivity.
  - split; [split; [intros _; exact Hn|reflexivity]|split].
    + intros msg Hm; injection Hm as <-; reflexivity.
    + intros r Hr; discriminate Hr.
Qed.


Lemma Movie_MarshalJSON_encoded (m : @Movie URL) r :
  MarshalJSON URL_String m = Return r -> exists j, fst r = json_encode j.
Proof.
  unfold MarshalJSON.
  destruct (sdownload_loop URL_String (SDownloadLink m) None) as [sdl|]; [|discriminate].
  destruct (url_String URL_String (DownloadLink m)) as [dl|]; [|discriminate].
  intros H; exists (MovieJSON_value (mkMovieJSON m dl sdl)).
  injection H as <-; reflexivity.
Qed.

Lemma Props_MarshalJSON_encoded (p : @PropsModel.Props URL) r :
  PropsModel.MarshalJSON URL_String p = Return r -> exists j, fst r = json_encode j.
Proof.
  destruct (Props_MarshalJSON_cases p) as [(b & su & l & _ & _ & _ & ->)|[_ ->]]; [|discriminate].
  intros H; exists (JObject
    [("Name", JString (PropsModel.Name p));
     ("Description", JString (PropsModel.Description p));
     ("BaseURL", JString (URL_String b));
     ("SearchURL", JString (URL_String su));
     ("ListURL", JString (URL_String l))]).
  injection H as <-; reflexivity.
Qed.

(** X6: every byte that [Movie.MarshalJSON] or [Props.MarshalJSON]
    returns is at least 0x20 and none of [<], [>], [&], whatever the
    fields hold: the JSON has no raw control byte (no newline) and no HTML
    special character. *)
Theorem MarshalJSON_html_safe (m : @Movie URL) (p : @PropsModel.Props URL) :
  (forall r, MarshalJSON URL_String m = Return r -> all_bytes json_out_byte (fst r) = true) /\
  (forall r, PropsModel.MarshalJSON URL_String p = Return r ->
     all_bytes json_out_byte (fst r) = true).
Proof.
  split; intros r Hr.
  - destruct (Movie_MarshalJSON_encoded m r Hr) as [j ->]; apply json_encode_safe.
  - destruct (Props_MarshalJSON_encoded p r Hr) as [j ->]; apply json_encode_safe.
Qed.

(** X7: the bytes that [Movie.MarshalJSON] or [Props.MarshalJSON]
    returns are valid UTF-8 ([utf8.ValidString]), even when a field holds
    invalid UTF-8. *)
Theorem MarshalJSON_valid_utf8 (m : @Movie URL) (p : @PropsModel.Props URL) :
  (forall r, MarshalJSON URL_String m = Return r -> GoJSON.ValidString (fst r) = true) /\
  (forall r, PropsModel.MarshalJSON URL_String p = Return r ->
     GoJSON.ValidString (fst r) = true).
Proof.
  split; intros r Hr.
  - destruct (Movie_MarshalJSON_encoded m r Hr) as [j ->]; apply json_encode_valid.
  - destruct (Props_MarshalJSON_encoded p r Hr) as [j ->]; apply json_encode_valid.
Qed.

End Marshal.

End ExtraFacts.

(** ** [getMovieIndexFromCtx] reads back a decimal index *)
Module CtxDecimal.
Import CtxIndex CtxIndexFacts GoJSON GoJSONFacts UTF8Facts ByteClasses MovieStringFacts.

Lemma bval_digit d : (d < 10)%N -> bval (pretty_N_char d) = (48 + Z.of_N d)%Z.
Proof.
  intros Hd.
  assert (d = 0 \/ d = 1 \/ d = 2 \/ d = 3 \/ d = 4 \/ d = 5 \/ d = 6 \/ d = 7 \/ d = 8 \/ d = 9)%N
    as H by lia.
  repeat destruct H as [->|H]; try reflexivity; subst; reflexivity.
Qed.

Lemma digits_value_pretty_go x s a :
  exists k, digits_value (pretty_N_go x s) a = digits_value s (a * 10 ^ Z.of_nat k + Z.of_N x)%Z.
Proof.
  revert s a. induction (N.lt_wf_0 x) as [x _ IH]; intros s a.
  destruct (N.eq_dec x 0%N) as [->|Hx].
  - exists O. rewrite pretty_N_go_0. f_equal. lia.
  - rewrite pretty_N_go_step by lia.
    destruct (IH (x / 10)%N ltac:(apply N.div_lt; lia)
                (String (pretty_N_char (x mod 10)) s) a) as [k ->].
    exists (S k). cbn [digits_value].
    rewrite bval_digit by (apply N.mod_lt; lia).
    assert (Hm : (x mod 10 < 10)%N) by (apply N.mod_lt; lia).
    replace (in_range 48 57 (48 + Z.of_N (x mod 10))) with true
      by (symmetry; apply in_range_true; set (d := (x mod 10)%N) in *; lia).
    f_equal. rewrite Nat2Z.inj_succ, Z.pow_succ_r by lia.
    rewrite N2Z.inj_mod, N2Z.inj_div. pose proof (Z.div_mod (Z.of_N x) 10). lia.
Qed.

Lemma digits_value_pretty_N x : digits_value (pretty_N_go x "") 0 = Some (Z.of_N x).
Proof. destruct (digits_value_pretty_go x "" 0) as [k ->]. reflexivity. Qed.


Lemma pretty_N_go_digits x : all_bytes is_digit (pretty_N_go x "") = true.
Proof.
  apply pretty_N_go_bytes; [|reflexivity].
  intros d; unfold pretty_N_char; repeat case_match; reflexivity.
Qed.

Lemma numeric_value_pretty (z : Z) : numeric_value (pretty z) = Some z.
Proof.
  destruct z as [|p|p]; [reflexivity| |].
  - cbv [pretty pretty_Z pretty_positive pretty_N].
    destruct (decide (N.pos p = 0%N)) as [|_]; [discriminate|].
    pose proof (digits_value_pretty_N (N.pos p)) as Hd.
    pose proof (pretty_N_go_digits (N.pos p)) as Hg.
    destruct (pretty_N_go (N.pos p) "") as [|c rest] eqn:E; [discriminate|].
    simpl in Hg. apply andb_true_iff in Hg as [Hc _].
    unfold is_digit in Hc; apply in_range_true in Hc.
    unfold numeric_value.
    replace ((bval c =? 45)%Z || (bval c =? 43)%Z) with false
      by (symmetry; apply orb_false_iff; split; apply Z.eqb_neq; lia).
    exact Hd.
  - cbv [pretty pretty_Z pretty_positive pretty_N].
    destruct (decide (N.pos p = 0%N)) as [|_]; [discriminate|].
    pose proof (digits_value_pretty_N (N.pos p)) as Hd.
    rewrite sapp_cons, sapp_nil. unfold numeric_value.
    replace ((bval "-" =? 45)%Z || (bval "-" =? 43)%Z) with true by reflexivity.
    destruct (pretty_N_go (N.pos p) "") as [|c rest] eqn:E; [discriminate|].
    rewrite Hd. reflexivity.
Qed.

(** X8: when the "movieIndex" value of the request context is the decimal
    form of an integer [i] in the range of [int] (as [strconv.Itoa]
    writes it: digits, with [-] before a negative number),
    [getMovieIndexFromCtx] returns [i]. *)
Theorem getMovieIndexFromCtx_decimal r (i : Z) :
  Ctx r !! "movieIndex" = Some (pretty i) -> int64_range i ->
  getMovieIndexFromCtx r = Value i.
Proof.
  intros Hs [Hlo Hhi]. unfold getMovieIndexFromCtx, Ctx_Get.
  rewrite Hs, Atoi_numeric, numeric_value_pretty.
  unfold in_int64; replace (- 2 ^ 63 <=? i)%Z with true by (symmetry; apply Z.leb_le; lia).
  replace (i <? 2 ^ 63)%Z with true by (symmetry; apply Z.ltb_lt; lia); reflexivity.
Qed.

End CtxDecimal.

(** ** Examples *)
Module Examples.
Import GoJSON Model URLModel.
Local Open Scope list_scope.

(** C10 on a search result with one movie titled "Sample". *)
Lemma GetIndexFromTitle_zero_on_miss_witness :
  no_match (Movies sample_search) "Missing" /\
  GetIndexFromTitle sample_search "Missing" = (0%Z, Some err_not_found).
Proof.
  assert (H : no_match (Movies sample_search) "Missing").
  { intros [|i] m Hm; simpl in Hm.
    - injection Hm as <-; discriminate.
    - rewrite lookup_nil in Hm; discriminate. }
  split; [exact H|].
  exact (proj1 (ModelFacts.GetIndexFromTitle_zero_on_miss sample_search "Missing" H)).
Defined.

(** C5: a movie with a nil [DownloadLink] makes [MarshalJSON] panic, and
    a movie that is not a series, with no series links, gets
    [SDownloadLink] written as [null]: neither left out nor an empty
    array. *)
Lemma MarshalJSON_link_rendering_counterexample :
  MarshalJSON URL_String (sample_movie None [] false) = Panic nil_deref /\
  MarshalJSON URL_String (sample_movie (Some link_ok) [] false) =
    Return (json_encode (JObject
      [("Index", JNumber 1); ("Title", JString "Sample");
       ("CoverPhotoLink", JString ""); ("Description", JString "");
       ("Size", JString ""); ("Year", JNumber 2020); ("IsSeries", JBool false);
       ("UploadDate", JString ""); ("Source", JString "netnaija");
       ("DownloadLink", JString "mailto:films@example.com?subject=x");
       ("SDownloadLink", JNull)]), None) /\
  json_encode JNull = "null".
Proof. split; [reflexivity|split; reflexivity]. Qed.

(** C5 (as corrected) on a series with two links. *)
Lemma MarshalJSON_link_rendering_witness :
  DownloadLink (sample_movie (Some link_ok) [Some link_ok; Some link_ok2] true) = Some link_ok /\
  SDownloadLink (sample_movie (Some link_ok) [Some link_ok; Some link_ok2] true) =
    map Some [link_ok; link_ok2] /\
  MarshalJSON URL_String (sample_movie (Some link_ok) [Some link_ok; Some link_ok2] true) =
    Return (json_encode (JObject
      [("Index", JNumber 1); ("Title", JString "Sample");
       ("CoverPhotoLink", JString ""); ("Description", JString "");
       ("Size", JString ""); ("Year", JNumber 2020); ("IsSeries", JBool true);
       ("UploadDate", JString ""); ("Source", JString "netnaija");
       ("DownloadLink", JString "mailto:films@example.com?subject=x");
       ("SDownloadLink", JArray [JString "mailto:films@example.com?subject=x";
                                 JString "mailto:films@example.com?subject=y"])]), None).
Proof.
  split; [reflexivity|split; [reflexivity|]].
  exact (ModelFacts.MarshalJSON_link_rendering URL_String
           (sample_movie (Some link_ok) [Some link_ok; Some link_ok2] true)
           link_ok [link_ok; link_ok2] eq_refl eq_refl).
Defined.

(** C6: a link whose string form holds the byte 0xE9 is written with
    [\ufffd] in its place, and decodes to the three bytes of U+FFFD, not
    to its string form. *)
Lemma MarshalJSON_link_round_trip_counterexample :
  MarshalJSON URL_String (sample_movie (Some link_latin1) [Some link_latin1] true) =
    Return (json_encode (MovieJSON_value
      (mkMovieJSON (sample_movie (Some link_latin1) [Some link_latin1] true)
         (URL_String link_latin1) (Some [URL_String link_latin1]))), None) /\
  json_encode (JString (URL_String link_latin1)) =
    String dq (String.append "mailto:films@example.com?subject=\ufffd" (String dq "")) /\
  unquote (json_encode (JString (URL_String link_latin1))) =
    Some (String.append "mailto:films@example.com?subject="
          (String "239"%char (String "191"%char (String "189"%char "")))) /\
  unquote (json_encode (JString (URL_String link_latin1))) <> Some (URL_String link_latin1).
Proof.
  split; [reflexivity|split; [vm_compute; reflexivity|split; [vm_compute; reflexivity|]]].
  intros H; vm_compute in H; discriminate H.
Qed.

(** C6 (as corrected) on a series with two links. *)
Lemma MarshalJSON_link_round_trip_witness :
  MarshalJSON URL_String (sample_movie (Some link_ok) [Some link_ok; Some link_ok2] true) =
    Return (json_encode (JObject
      [("Index", JNumber 1); ("Title", JString "Sample");
       ("CoverPhotoLink", JString ""); ("Description", JString "");
       ("Size", JString ""); ("Year", JNumber 2020); ("IsSeries", JBool true);
       ("UploadDate", JString ""); ("Source", JString "netnaija");
       ("DownloadLink", JString "mailto:films@example.com?subject=x");
       ("SDownloadLink", JArray [JString "mailto:films@example.com?subject=x";
                                 JString "mailto:films@example.com?subject=y"])]), None) /\
  unquote (json_encode (JString "mailto:films@example.com?subject=x")) =
    Some "mailto:films@example.com?subject=x" /\
  map (fun v => unquote (json_encode (JString (URL_String v)))) [link_ok; link_ok2] =
  map (fun v => Some (URL_String v)) [link_ok; link_ok2].
Proof.
  exact (RoundTrip.MarshalJSON_link_round_trip URL_String
           (sample_movie (Some link_ok) [Some link_ok; Some link_ok2] true)
           link_ok [link_ok; link_ok2] eq_refl eq_refl ltac:(discriminate)
           ltac:(vm_compute; reflexivity)
           ltac:(repeat constructor)).
Defined.

End Examples.

Module ExtraExamples.
Import GoJSON Model URLModel.
Local Open Scope list_scope.

(** X1 on a movie and the same movie as a series with a link: the same
    [String()] text, the same title and year. *)
Lemma Movie_String_injective_witness :
  Movie_String (sample_movie None [] false) =
    Movie_String (sample_movie (Some link_ok) [Some link_ok] true) /\
  Title (sample_movie None [] false) = Title (sample_movie (Some link_ok) [Some link_ok] true) /\
  Year (sample_movie None [] false) = Year (sample_movie (Some link_ok) [Some link_ok] true).
Proof.
  split; [vm_compute; reflexivity|].
  exact (MovieStringFacts.Movie_String_injective _ _ ltac:(vm_compute; reflexivity)).
Defined.


(** X3 on [sample_search] and a title it does not hold. *)
Lemma GetMovieByTitle_miss_not_marshalable_witness :
  snd (GetMovieByTitle sample_search "Missing") <> None /\
  GetMovieByTitle sample_search "Missing" = (zero_Movie, Some err_not_found) /\
  MarshalJSON URL_String (fst (GetMovieByTitle sample_search "Missing")) = Panic nil_deref /\
  Movie_String (fst (GetMovieByTitle sample_search "Missing")) = " (0)".
Proof.
  assert (H : snd (GetMovieByTitle sample_search "Missing") <> None) by discriminate.
  split; [exact H|].
  exact (ExtraFacts.GetMovieByTitle_miss_not_marshalable URL_String sample_search "Missing" H).
Defined.


(** X8 on a request whose context holds "-42". *)
Lemma getMovieIndexFromCtx_decimal_witness :
  CtxIndex.Ctx (CtxIndex.mkRequest (<["movieIndex" := "-42"]> ∅)) !! "movieIndex" =
    Some (pretty (-42)%Z) /\
  CtxIndex.int64_range (-42)%Z /\
  CtxIndex.getMovieIndexFromCtx (CtxIndex.mkRequest (<["movieIndex" := "-42"]> ∅)) =
    CtxIndex.Value (-42)%Z.
Proof.
  assert (H1 : CtxIndex.Ctx (CtxIndex.mkRequest (<["movieIndex" := "-42"]> ∅)) !! "movieIndex" =
                 Some (pretty (-42)%Z)) by (vm_compute; reflexivity).
  assert (H2 : CtxIndex.int64_range (-42)%Z) by (unfold CtxIndex.int64_range; lia).
  split; [exact H1|split; [exact H2|]].
  exact (CtxDecimal.getMovieIndexFromCtx_decimal _ (-42)%Z H1 H2).
Defined.

End ExtraExamples.
